(** * Peer connection of the BitTorrent downloader: protocol/bt/torrent/peer_conn.go

    A shallow embedding of the peer connection (handshake, keepalive,
    choke/interest bookkeeping, block requests, block-to-file mapping and
    piece verification) together with the properties its specification
    states about it.

    Conventions.
    - Go's [int] and [int64] are 64-bit two's complement integers: they are
      modelled as [Z] with the wrap-around written out ([wrap64]); [uint32]
      as [Z] reduced modulo 2^32.
    - A run-time panic of the Go code is the [None] (or [Panicked]) result.
    - Collaborators that live in other packages (metainfo, message, peer,
      the piece-state tracker, the operating system) are record fields or
      Section variables: the theorems hold for every behaviour of theirs. *)

From Stdlib Require Import Ascii.
From stdpp Require Import base numbers list strings.

Local Open Scope Z_scope.

(** ** Machine integers *)

Definition wrap64 (z : Z) : Z := (z + 2 ^ 63) mod 2 ^ 64 - 2 ^ 63.
Definition add64 (a b : Z) : Z := wrap64 (a + b).
Definition sub64 (a b : Z) : Z := wrap64 (a - b).
Definition mul64 (a b : Z) : Z := wrap64 (a * b).
Definition to_int64 (z : Z) : Z := wrap64 z.
Definition to_uint32 (z : Z) : Z := z mod 2 ^ 32.

Definition in_int64 (z : Z) : Prop := - 2 ^ 63 <= z < 2 ^ 63.

(** Equality of byte strings, as Go's [==] on byte arrays. *)
Fixpoint bytes_eqb (a b : list Byte.byte) : bool :=
  match a, b with
  | [], [] => true
  | x :: a', y :: b' => Byte.eqb x y && bytes_eqb a' b'
  | _, _ => false
  end.

(** const blockSize = 2 << 13 *)
Definition blockSize : Z := Z.shiftl 2 13.
(** const keepaliveTimeout = 60 * 2 *)
Definition keepaliveTimeout : Z := 60 * 2.
(** var keepaliveData = make([]byte, 4) *)
Definition keepaliveData : list Byte.byte := replicate 4 Byte.x00.

(** ** Errors

    [errPieceCheckFailed] is the package variable of peer_conn.go; the other
    constructors are the errors the file creates in place ([fmt.Errorf],
    [errors.New]), [io.EOF], and the errors handed back by the network, the
    operating system and the codecs ([errExternal]). *)
Inductive error : Type :=
  | errPieceCheckFailed
  | errInfoHashNotServing
  | errReadyFail
  | errReadyTimeOut
  | errEOF
  | errWrapped (prefix : string) (cause : error)
  | errExternal (what : string).

(** A Go [error] value is [nil] or an error. *)
Definition goerror : Type := option error.

(** ** Paths: path.Join and filepath.Join of Go's library, slash separated *)

Module gopath.

Fixpoint splitSep (cs cur : list ascii) : list (list ascii) :=
  match cs with
  | [] => [rev cur]
  | c :: r =>
      if Ascii.eqb c "/"%char then rev cur :: splitSep r []
      else splitSep r (c :: cur)
  end.

Definition isDot (e : list ascii) : bool :=
  match e with ["."%char] => true | _ => false end.
Definition isDotDot (e : list ascii) : bool :=
  match e with ["."%char; "."%char] => true | _ => false end.

(** One element of the lexical clean-up; [out] is the stack of elements kept
    so far, innermost first. *)
Definition cleanStep (rooted : bool) (out : list (list ascii)) (e : list ascii)
  : list (list ascii) :=
  match e with
  | [] => out
  | _ =>
      if isDot e then out
      else if isDotDot e then
        match out with
        | top :: below =>
            if isDotDot top then e :: out else below
        | [] => if rooted then out else [e]
        end
      else e :: out
  end.

Fixpoint joinSep (es : list (list ascii)) : list ascii :=
  match es with
  | [] => []
  | [e] => e
  | e :: r => e ++ "/"%char :: joinSep r
  end.

Definition Clean (p : string) : string :=
  match String.list_ascii_of_string p with
  | [] => "."
  | (c :: _) as cs =>
      let rooted := Ascii.eqb c "/"%char in
      let out := rev (fold_left (cleanStep rooted) (splitSep cs []) []) in
      let body := joinSep out in
      match rooted, body with
      | true, _ => String.string_of_list_ascii ("/"%char :: body)
      | false, [] => "."
      | false, _ => String.string_of_list_ascii body
      end
  end.

Definition isEmpty (s : string) : bool :=
  match s with EmptyString => true | _ => false end.

Fixpoint stringsJoin (elem : list string) : string :=
  match elem with
  | [] => ""
  | [e] => e
  | e :: r => e +:+ "/" +:+ stringsJoin r
  end.

(** path.Join: empty elements are ignored, the rest joined and cleaned. *)
Definition Join (elem : list string) : string :=
  match filter (fun e => isEmpty e = false) elem with
  | [] => ""
  | es => Clean (stringsJoin es)
  end.

End gopath.

Module gofilepath.

(** filepath.Join: from the first non-empty element on, joined and cleaned. *)
Fixpoint Join (elem : list string) : string :=
  match elem with
  | [] => ""
  | e :: r =>
      if gopath.isEmpty e then Join r
      else gopath.Clean (gopath.stringsJoin elem)
  end.

End gofilepath.

(** ** Collaborating packages: the parts peer_conn.go reads *)

Module metainfo.

Record File := { Length : Z; FilePath : list string }.

Record Info := {
  PieceLength : Z;
  Pieces : list (list Byte.byte);
  Name : string;
  Files : list File
}.

(** One file of the torrent with its byte range [Begin, End). *)
Record FileDetail := { Path : list string; Begin : Z; End : Z }.

(** The methods of MetaInfo are other-package code: their results are
    fields. *)
Record MetaInfo := {
  info : Info;
  GetFileDetails : list FileDetail;
  GetPieceLength : Z -> Z;
  GetInfoHash : list Byte.byte
}.

End metainfo.

Module message.

(** A decoded Piece message: index and begin are uint32. *)
Record Piece := { Index : Z; Begin : Z; Block : list Byte.byte }.

(** A Request message as built by BuildRequest(index, begin, length). *)
Record Request := { ReqIndex : Z; ReqBegin : Z; ReqLength : Z }.

End message.

(** ** getWriteFile and the block-to-file mapping of handlePiece *)

Record fileBlock := {
  filepath : string;
  fileSeek : Z;
  blockBegin : Z;
  blockEnd : Z
}.

Fixpoint getWriteFile_from (i : Z) (pieceBegin : Z)
    (fds : list metainfo.FileDetail) : Z :=
  match fds with
  | [] => -1
  | f :: rest =>
      if (metainfo.Begin f <=? pieceBegin) && (metainfo.End f >? pieceBegin)
      then i
      else getWriteFile_from (i + 1) pieceBegin rest
  end.

Definition getWriteFile (pieceBegin : Z) (fds : list metainfo.FileDetail) : Z :=
  getWriteFile_from 0 pieceBegin fds.

(** Go's [l[i:]]: a panic ([None]) unless 0 <= i <= len(l). *)
Definition slice_from {A} (l : list A) (i : Z) : option (list A) :=
  if (0 <=? i) && (i <=? Z.of_nat (length l))
  then Some (drop (Z.to_nat i) l) else None.

(** Go's [l[i]]: a panic ([None]) unless 0 <= i < len(l). *)
Definition index_at {A} (l : list A) (i : Z) : option A :=
  if 0 <=? i then l !! Z.to_nat i else None.

(** Go's [l[b:e]]: a panic ([None]) unless 0 <= b <= e <= len(l). *)
Definition slice {A} (l : list A) (b e : Z) : option (list A) :=
  if (0 <=? b) && (b <=? e) && (e <=? Z.of_nat (length l))
  then Some (take (Z.to_nat (e - b)) (drop (Z.to_nat b) l)) else None.

(** The loop [for _, f := range fds[writeIndex:]] of the multi-file branch. *)
Fixpoint walkFiles (fds : list metainfo.FileDetail)
    (blockLength blockFileBegin blockSeek : Z) (fileBlocks : list fileBlock)
  : list fileBlock :=
  match fds with
  | [] => fileBlocks
  | f :: rest =>
      let fileWritable := sub64 (metainfo.End f) blockFileBegin in
      let blockWritable := sub64 blockLength blockSeek in
      let fb blockEnd :=
        {| filepath := gofilepath.Join (metainfo.Path f);
           fileSeek := sub64 blockFileBegin (metainfo.Begin f);
           blockBegin := blockSeek;
           blockEnd := blockEnd |} in
      if fileWritable >=? blockWritable then
        fileBlocks ++ [fb (add64 blockSeek blockWritable)]
      else
        walkFiles rest blockLength (metainfo.End f)
          (add64 blockSeek fileWritable)
          (fileBlocks ++ [fb (add64 blockSeek fileWritable)])
  end.

Definition pieceBeginOf (i : metainfo.Info) (piece : message.Piece) : Z :=
  mul64 (to_int64 (message.Index piece)) (to_int64 (metainfo.PieceLength i)).

Definition blockBeginOf (i : metainfo.Info) (piece : message.Piece) : Z :=
  add64 (pieceBeginOf i piece) (to_int64 (message.Begin piece)).

(** The first half of handlePiece: the FileBlocks of a received block. *)
Definition fileBlocksOf (i : metainfo.Info) (fds : list metainfo.FileDetail)
    (piece : message.Piece) : option (list fileBlock) :=
  let blockLength := to_int64 (Z.of_nat (length (message.Block piece))) in
  let blockBegin := blockBeginOf i piece in
  if (length (metainfo.Files i) =? 0)%nat then
    Some [ {| filepath := metainfo.Name i;
              fileSeek := blockBegin;
              blockBegin := 0;
              blockEnd := blockLength |} ]
  else
    let writeIndex := getWriteFile blockBegin fds in
    match slice_from fds writeIndex with
    | None => None
    | Some tail => Some (walkFiles tail blockLength blockBegin 0 [])
    end.

(** ** Channels, the connection, and the collaborators *)

Inductive chanState := chNil | chOpen | chClosed.

(** An unbuffered channel: the values handed over from a sender to a
    receiver so far, in order, and whether it was made and closed. *)
Record chan (A : Type) := { sent : list A; cstate : chanState }.
Arguments sent {A} _.
Arguments cstate {A} _.

Definition makeChan {A} : chan A := {| sent := []; cstate := chOpen |}.
Definition nilChan {A} : chan A := {| sent := []; cstate := chNil |}.

(** What a receive [<-ch] returned: a value a sender handed over, or the
    zero value a closed channel gives at once. *)
Inductive received (A : Type) :=
  | gotValue (v : A)
  | gotClosed.
Arguments gotValue {A} _.
Arguments gotClosed {A}.

(** The channel after that receive, as the receiver knows it: the value
    joins those handed over; a channel that answered as closed is closed. *)
Definition chanRecv {A} (r : received A) (c : chan A) : chan A :=
  match r with
  | gotValue v => {| sent := sent c ++ [v]; cstate := cstate c |}
  | gotClosed => {| sent := sent c; cstate := chClosed |}
  end.

(** The buffered queue of in-flight block requests: its tokens are all nil,
    so only their number matters. *)
Record queue := { tokens : Z; qstate : chanState }.

Inductive packet :=
  | pktHandshake (reserved infoHash peerID : list Byte.byte)
  | pktInterested
  | pktUnchoke
  | pktRequest (r : message.Request)
  | pktBytes (data : list Byte.byte).

(** net.Conn seen from this side: what was handed to Write, in order, and
    how often Close was called. *)
Record Conn := { written : list packet; closeCalls : nat }.

Module peer.
Record Handshake := {
  Reserved : list Byte.byte;
  InfoHash : list Byte.byte;
  PeerID : list Byte.byte
}.
Definition NewHandshake (reserved infoHash peerID : list Byte.byte) : Handshake :=
  {| Reserved := reserved; InfoHash := infoHash; PeerID := peerID |}.
End peer.

(** message.Bitfield after Decode: the piece indices the peer claims. *)
Definition Bitfield : Type := list Z.

(** Modelled from the spec: message.Bitfield.Provide, whose source is not
    part of this file's package. Section 4.4 of the specification: "the set
    of piece indices the remote has that the local tracker does not yet have
    completed"; [had] holds the completed ones. *)
Definition Provide (b : Bitfield) (had : list Z) : list Z :=
  filter (fun i => i ∉ had) b.

(** Calls the operating system received. *)
Inductive oscall :=
  | callOpenFile (name : string)
  | callWriteAt (name : string) (data : list Byte.byte) (off : Z)
  | callOpen (name : string)
  | callSeek (name : string) (off : Z)
  | callCopyN (name : string) (n : Z).

(** Everything peer_conn.go calls and does not define: the piece-state
    tracker, the file system, the network, the codecs and SHA-1. The
    development is parametric in all of it: in the types of the tracker and
    of the disk ([Types]) and in the operations ([Env]). *)
Class Types := { PieceStates : Type; FS : Type }.

Class Env {T : Types} := {
  ps_size : PieceStates -> Z;
  ps_isFinish : PieceStates -> Z -> bool;
  ps_blockCount : PieceStates -> Z -> option Z;
  isBlockDone : PieceStates -> Z -> Z -> bool;
  setBlockDone : PieceStates -> Z -> Z -> PieceStates;
  isPieceDone : PieceStates -> Z -> bool;
  osOpenFile : FS -> string -> FS * goerror;
  osWriteAt : FS -> string -> list Byte.byte -> Z -> FS * goerror;
  osOpen : FS -> string -> goerror;
  osSeek : FS -> string -> Z -> goerror;
  osCopyN : FS -> string -> Z -> Z -> list Byte.byte * goerror;
  connWriteErr : Conn -> packet -> goerror;
  connReadFull : Conn -> Z -> list Byte.byte * goerror;
  HandshakeDecode : list Byte.byte -> peer.Handshake + error;
  BitfieldDecode : list Byte.byte -> Bitfield;
  PieceDecode : list Byte.byte -> message.Piece;
  sha1Sum : list Byte.byte -> list Byte.byte
}.

Record Torrent {T : Types} := {
  MetaInfo : metainfo.MetaInfo;
  PeerID : list Byte.byte;
  Path : string;
  pieceStates : PieceStates
}.

Record peerConn {T : Types} := {
  torrent : Torrent;
  conn : Conn;
  amChoking : bool;
  amInterested : bool;
  peerChoking : bool;
  peerInterested : bool;
  lastReciveTime : Z;
  bitfield : option Bitfield;
  readyEnd : bool;
  downloadedCh : chan goerror;
  disconnectCh : chan goerror;
  blockQueueCh : queue
}.

(** The other ends of the three unbuffered channels the receive goroutine
    sends on: how many values the select of ready will still take from
    readyCh (one while it waits, none once it has timed out or returned),
    and how many the selects of downloadPiece will still take from
    downloadedCh and from disconnectCh (none when no downloadPiece is
    running). A send completes only by meeting one of these receives. *)
Record receivers := {
  onReady : nat;
  onDownloaded : nat;
  onDisconnect : nat
}.

(** The state a message handler runs in: the connection, the readiness
    channel the receive loop holds, the receives the other goroutines still
    perform, the disk, the calls made to the operating system and the bytes
    fed to the running SHA-1. *)
Record State {T : Types} := {
  st_pc : peerConn;
  st_readyCh : chan bool;
  st_receivers : receivers;
  st_fs : FS;
  st_calls : list oscall;
  st_sha1 : list Byte.byte
}.

Section Setters.
Context {T : Types}.

Definition set_pieceStates (v : PieceStates) (t : Torrent) : Torrent :=
  {| MetaInfo := MetaInfo t; PeerID := PeerID t; Path := Path t;
     pieceStates := v |}.

Definition set_torrent (v : Torrent) (p : peerConn) : peerConn :=
  {| torrent := v; conn := conn p; amChoking := amChoking p;
     amInterested := amInterested p; peerChoking := peerChoking p;
     peerInterested := peerInterested p; lastReciveTime := lastReciveTime p;
     bitfield := bitfield p; readyEnd := readyEnd p;
     downloadedCh := downloadedCh p; disconnectCh := disconnectCh p;
     blockQueueCh := blockQueueCh p |}.

Definition set_conn (v : Conn) (p : peerConn) : peerConn :=
  {| torrent := torrent p; conn := v; amChoking := amChoking p;
     amInterested := amInterested p; peerChoking := peerChoking p;
     peerInterested := peerInterested p; lastReciveTime := lastReciveTime p;
     bitfield := bitfield p; readyEnd := readyEnd p;
     downloadedCh := downloadedCh p; disconnectCh := disconnectCh p;
     blockQueueCh := blockQueueCh p |}.

(** The four choke/interest flags, in the order of the struct. *)
Definition set_flags (ac ai pch pi : bool) (p : peerConn) : peerConn :=
  {| torrent := torrent p; conn := conn p; amChoking := ac;
     amInterested := ai; peerChoking := pch;
     peerInterested := pi; lastReciveTime := lastReciveTime p;
     bitfield := bitfield p; readyEnd := readyEnd p;
     downloadedCh := downloadedCh p; disconnectCh := disconnectCh p;
     blockQueueCh := blockQueueCh p |}.

Definition set_amChoking (v : bool) (p : peerConn) : peerConn :=
  set_flags v (amInterested p) (peerChoking p) (peerInterested p) p.
Definition set_amInterested (v : bool) (p : peerConn) : peerConn :=
  set_flags (amChoking p) v (peerChoking p) (peerInterested p) p.
Definition set_peerChoking (v : bool) (p : peerConn) : peerConn :=
  set_flags (amChoking p) (amInterested p) v (peerInterested p) p.

Definition set_lastReciveTime (v : Z) (p : peerConn) : peerConn :=
  {| torrent := torrent p; conn := conn p; amChoking := amChoking p;
     amInterested := amInterested p; peerChoking := peerChoking p;
     peerInterested := peerInterested p; lastReciveTime := v;
     bitfield := bitfield p; readyEnd := readyEnd p;
     downloadedCh := downloadedCh p; disconnectCh := disconnectCh p;
     blockQueueCh := blockQueueCh p |}.

Definition set_bitfield (v : option Bitfield) (p : peerConn) : peerConn :=
  {| torrent := torrent p; conn := conn p; amChoking := amChoking p;
     amInterested := amInterested p; peerChoking := peerChoking p;
     peerInterested := peerInterested p; lastReciveTime := lastReciveTime p;
     bitfield := v; readyEnd := readyEnd p;
     downloadedCh := downloadedCh p; disconnectCh := disconnectCh p;
     blockQueueCh := blockQueueCh p |}.

Definition set_readyEnd (v : bool) (p : peerConn) : peerConn :=
  {| torrent := torrent p; conn := conn p; amChoking := amChoking p;
     amInterested := amInterested p; peerChoking := peerChoking p;
     peerInterested := peerInterested p; lastReciveTime := lastReciveTime p;
     bitfield := bitfield p; readyEnd := v;
     downloadedCh := downloadedCh p; disconnectCh := disconnectCh p;
     blockQueueCh := blockQueueCh p |}.

Definition set_downloadedCh (v : chan goerror) (p : peerConn) : peerConn :=
  {| torrent := torrent p; conn := conn p; amChoking := amChoking p;
     amInterested := amInterested p; peerChoking := peerChoking p;
     peerInterested := peerInterested p; lastReciveTime := lastReciveTime p;
     bitfield := bitfield p; readyEnd := readyEnd p;
     downloadedCh := v; disconnectCh := disconnectCh p;
     blockQueueCh := blockQueueCh p |}.

Definition set_disconnectCh (v : chan goerror) (p : peerConn) : peerConn :=
  {| torrent := torrent p; conn := conn p; amChoking := amChoking p;
     amInterested := amInterested p; peerChoking := peerChoking p;
     peerInterested := peerInterested p; lastReciveTime := lastReciveTime p;
     bitfield := bitfield p; readyEnd := readyEnd p;
     downloadedCh := downloadedCh p; disconnectCh := v;
     blockQueueCh := blockQueueCh p |}.

Definition set_blockQueueCh (v : queue) (p : peerConn) : peerConn :=
  {| torrent := torrent p; conn := conn p; amChoking := amChoking p;
     amInterested := amInterested p; peerChoking := peerChoking p;
     peerInterested := peerInterested p; lastReciveTime := lastReciveTime p;
     bitfield := bitfield p; readyEnd := readyEnd p;
     downloadedCh := downloadedCh p; disconnectCh := disconnectCh p;
     blockQueueCh := v |}.

Definition set_pc (v : peerConn) (s : State) : State :=
  {| st_pc := v; st_readyCh := st_readyCh s;
     st_receivers := st_receivers s; st_fs := st_fs s;
     st_calls := st_calls s; st_sha1 := st_sha1 s |}.
Definition set_readyCh (v : chan bool) (s : State) : State :=
  {| st_pc := st_pc s; st_readyCh := v;
     st_receivers := st_receivers s; st_fs := st_fs s;
     st_calls := st_calls s; st_sha1 := st_sha1 s |}.
Definition set_receivers (v : receivers) (s : State) : State :=
  {| st_pc := st_pc s; st_readyCh := st_readyCh s;
     st_receivers := v; st_fs := st_fs s;
     st_calls := st_calls s; st_sha1 := st_sha1 s |}.
Definition set_fs (v : FS) (c : oscall) (s : State) : State :=
  {| st_pc := st_pc s; st_readyCh := st_readyCh s;
     st_receivers := st_receivers s; st_fs := v;
     st_calls := st_calls s ++ [c]; st_sha1 := st_sha1 s |}.
Definition set_sha1 (v : list Byte.byte) (s : State) : State :=
  {| st_pc := st_pc s; st_readyCh := st_readyCh s;
     st_receivers := st_receivers s; st_fs := st_fs s;
     st_calls := st_calls s; st_sha1 := v |}.

(** One receive of the other side has met a send. *)
Definition metReady (r : receivers) : receivers :=
  {| onReady := pred (onReady r); onDownloaded := onDownloaded r;
     onDisconnect := onDisconnect r |}.
Definition metDownloaded (r : receivers) : receivers :=
  {| onReady := onReady r; onDownloaded := pred (onDownloaded r);
     onDisconnect := onDisconnect r |}.
Definition metDisconnect (r : receivers) : receivers :=
  {| onReady := onReady r; onDownloaded := onDownloaded r;
     onDisconnect := pred (onDisconnect r) |}.

End Setters.

Section ConnOps.
Context {T : Types} {Ev : Env}.

(** pc.conn.Write(p): the packet is recorded, the network says whether the
    write failed. *)
Definition connWrite (p : packet) (pc : peerConn) : peerConn * goerror :=
  let c := conn pc in
  (set_conn {| written := written c ++ [p]; closeCalls := closeCalls c |} pc,
   connWriteErr c p).

(** pc.conn.Close() *)
Definition connClose (pc : peerConn) : peerConn :=
  let c := conn pc in
  set_conn {| written := written c; closeCalls := S (closeCalls c) |} pc.

End ConnOps.

(** ** Handlers: a state monad with panics and parked goroutines *)

Inductive Outcome (S A : Type) :=
  | Done (a : A) (s : S)
  | Panicked (s : S)
  | Blocked (s : S).
Arguments Done {S A} _ _.
Arguments Panicked {S A} _.
Arguments Blocked {S A} _.

Definition outState {S A} (o : Outcome S A) : S :=
  match o with Done _ s | Panicked s | Blocked s => s end.

Definition M {T : Types} (A : Type) : Type := State -> Outcome State A.

#[export] Instance M_ret {T : Types} : MRet M := fun A a s => Done a s.
#[export] Instance M_bind {T : Types} : MBind M := fun A B k m s =>
  match m s with
  | Done a s' => k a s'
  | Panicked s' => Panicked s'
  | Blocked s' => Blocked s'
  end.

Section Handlers.
Context {T : Types} {Ev : Env}.

Definition gets {A} (f : State -> A) : M A := fun s => Done (f s) s.
Definition modify (f : State -> State) : M unit := fun s => Done tt (f s).
Definition modifyPc (f : peerConn -> peerConn) : M unit :=
  modify (fun s => set_pc (f (st_pc s)) s).
Definition panic {A} : M A := fun s => Panicked s.
Definition liftOpt {A} (o : option A) : M A :=
  match o with Some a => mret a | None => panic end.

(** [ch <- v] on an unbuffered channel and [close(ch)]. A send on an open
    channel returns once a receiver has taken the value ([taker]: one still
    will) and parks the sender otherwise; a send on a nil channel never
    returns either (outer [None]). A send on a closed channel and a close
    of a closed or nil channel panic. *)
Definition chanSend {A} (taker : bool) (v : A) (c : chan A)
  : option (option (chan A)) :=
  match cstate c with
  | chOpen =>
      if taker then Some (Some {| sent := sent c ++ [v]; cstate := chOpen |})
      else None
  | chClosed => Some None
  | chNil => None
  end.
Definition chanClose {A} (c : chan A) : option (chan A) :=
  match cstate c with
  | chOpen => Some {| sent := sent c; cstate := chClosed |}
  | _ => None
  end.

Definition sendReady (v : bool) : M unit := fun s =>
  let r := st_receivers s in
  match chanSend (0 <? onReady r)%nat v (st_readyCh s) with
  | Some (Some c) => Done tt (set_receivers (metReady r) (set_readyCh c s))
  | Some None => Panicked s
  | None => Blocked s
  end.
Definition closeReady : M unit := fun s =>
  match chanClose (st_readyCh s) with
  | Some c => Done tt (set_readyCh c s)
  | None => Panicked s
  end.
Definition sendDownloaded (v : goerror) : M unit := fun s =>
  let r := st_receivers s in
  match chanSend (0 <? onDownloaded r)%nat v (downloadedCh (st_pc s)) with
  | Some (Some c) =>
      Done tt (set_receivers (metDownloaded r)
                 (set_pc (set_downloadedCh c (st_pc s)) s))
  | Some None => Panicked s
  | None => Blocked s
  end.
Definition closeDownloaded : M unit := fun s =>
  match chanClose (downloadedCh (st_pc s)) with
  | Some c => Done tt (set_pc (set_downloadedCh c (st_pc s)) s)
  | None => Panicked s
  end.

(** [<-pc.blockQueueCh]: takes a token; with none left it returns at once on
    a closed queue and waits otherwise. *)
Definition dequeue : M unit := fun s =>
  let q := blockQueueCh (st_pc s) in
  if 0 <? tokens q then
    Done tt (set_pc (set_blockQueueCh
      {| tokens := tokens q - 1; qstate := qstate q |} (st_pc s)) s)
  else match qstate q with
       | chClosed => Done tt s
       | _ => Blocked s
       end.

Definition openFileM (name : string) : M goerror := fun s =>
  let '(fs', err) := osOpenFile (st_fs s) name in
  Done err (set_fs fs' (callOpenFile name) s).
Definition writeAtM (name : string) (data : list Byte.byte) (off : Z)
  : M goerror := fun s =>
  let '(fs', err) := osWriteAt (st_fs s) name data off in
  Done err (set_fs fs' (callWriteAt name data off) s).
Definition openM (name : string) : M goerror := fun s =>
  Done (osOpen (st_fs s) name) (set_fs (st_fs s) (callOpen name) s).
Definition seekM (name : string) (off : Z) : M goerror := fun s =>
  Done (osSeek (st_fs s) name off) (set_fs (st_fs s) (callSeek name off) s).
(** io.CopyN(sha1, file, n) on the file positioned at [off]. *)
Definition copyNM (name : string) (off n : Z)
  : M (list Byte.byte * goerror) := fun s =>
  let r := osCopyN (st_fs s) name off n in
  Done r (set_sha1 (st_sha1 s ++ r.1) (set_fs (st_fs s) (callCopyN name n) s)).

(** *** handleUnchoke *)
Definition handleUnchoke : M unit :=
  modifyPc (set_peerChoking false);;
  pc ← gets st_pc;
  if readyEnd pc then mret tt
  else
    modifyPc (set_readyEnd true);;
    (if amInterested pc then sendReady true else sendReady false);;
    closeReady.

(** *** getHavePieces and handleBitfield *)
Definition getHavePieces (pc : peerConn) (b : Bitfield) : list Z :=
  let ps := pieceStates (torrent pc) in
  let had := to_uint32 <$> filter (fun i => ps_isFinish ps i = true)
                             (seqZ 0 (ps_size ps)) in
  Provide b had.

Definition handleBitfield (buf : list Byte.byte) : M unit :=
  modifyPc (set_bitfield (Some (BitfieldDecode buf)));;
  pc ← gets st_pc;
  let have := getHavePieces pc (BitfieldDecode buf) in
  if (0 <? length have)%nat then
    modifyPc (fun pc => (connWrite pktInterested pc).1);;
    modifyPc (set_amInterested true);;
    modifyPc (fun pc => (connWrite pktUnchoke pc).1);;
    modifyPc (set_amChoking false)
  else
    modifyPc connClose.

(** *** handlePiece *)

(** The body of the loop that writes one FileBlock: open (create), slice
    the block, write at the file offset. *)
Definition writeFileBlock (root : string) (piece : message.Piece)
    (f : fileBlock) : M goerror :=
  let name := gofilepath.Join [root; filepath f] in
  err ← openFileM name;
  match err with
  | Some e => mret (Some e)
  | None =>
      data ← liftOpt (slice (message.Block piece) (blockBegin f) (blockEnd f));
      writeAtM name data (fileSeek f)
  end.

Fixpoint writeFileBlocks (root : string) (piece : message.Piece)
    (fileBlocks : list fileBlock) : M goerror :=
  match fileBlocks with
  | [] => mret None
  | f :: rest =>
      err ← writeFileBlock root piece f;
      match err with
      | Some e => mret (Some e)
      | None => writeFileBlocks root piece rest
      end
  end.

(** The loop that re-reads the finished piece, file by file. *)
Fixpoint verifyWalk (root : string) (fds : list metainfo.FileDetail)
    (pieceLength fileBegin : Z) : M unit :=
  match fds with
  | [] => mret tt
  | fd :: rest =>
      p0 ← liftOpt (index_at (metainfo.Path fd) 0);
      let name := gopath.Join [root; p0] in
      oerr ← openM name;
      match oerr with
      | Some _ => panic
      | None =>
          serr ← seekM name fileBegin;
          match serr with
          | Some _ => panic
          | None =>
              r ← copyNM name fileBegin (to_int64 pieceLength);
              match r.2 with
              | Some errEOF | None =>
                  let pieceLength' :=
                    sub64 pieceLength (to_int64 (Z.of_nat (length r.1))) in
                  if pieceLength' >? 0 then verifyWalk root rest pieceLength' 0
                  else mret tt
              | Some _ => panic
              end
          end
      end
  end.

(** [copy(downHash[:], sum)] into a zeroed [20]byte. *)
Definition array20 (l : list Byte.byte) : list Byte.byte :=
  take 20 (l ++ replicate 20 Byte.x00).

(** The part of handlePiece that runs once the piece is complete. *)
Definition verifyPiece (piece : message.Piece) : M unit :=
  modify (set_sha1 []);;
  pc ← gets st_pc;
  let mi := MetaInfo (torrent pc) in
  let fds := metainfo.GetFileDetails mi in
  let pieceBegin := pieceBeginOf (metainfo.info mi) piece in
  let pieceLength := to_int64 (metainfo.GetPieceLength mi (message.Index piece)) in
  let writeIndex := getWriteFile pieceBegin fds in
  fd0 ← liftOpt (index_at fds writeIndex);
  let fileBegin := sub64 pieceBegin (metainfo.Begin fd0) in
  tail ← liftOpt (slice_from fds writeIndex);
  verifyWalk (Path (torrent pc)) tail pieceLength fileBegin;;
  modifyPc connClose;;
  digest ← gets st_sha1;
  expected ← liftOpt (index_at (metainfo.Pieces (metainfo.info mi))
                        (message.Index piece));
  (if bytes_eqb (array20 (sha1Sum digest)) expected
   then sendDownloaded None
   else sendDownloaded (Some errPieceCheckFailed));;
  closeDownloaded.

Definition handlePiece (buf : list Byte.byte) : M unit :=
  let piece := PieceDecode buf in
  pc ← gets st_pc;
  let mi := MetaInfo (torrent pc) in
  fileBlocks ← liftOpt (fileBlocksOf (metainfo.info mi)
                          (metainfo.GetFileDetails mi) piece);
  err ← writeFileBlocks (Path (torrent pc)) piece fileBlocks;
  match err with
  | Some _ =>
      sendDownloaded (Some errPieceCheckFailed);;
      modifyPc connClose
  | None =>
      modifyPc (fun pc => set_torrent (set_pieceStates
        (setBlockDone (pieceStates (torrent pc))
           (message.Index piece) (message.Begin piece)) (torrent pc)) pc);;
      dequeue;;
      pc' ← gets st_pc;
      if isPieceDone (pieceStates (torrent pc')) (message.Index piece)
      then verifyPiece piece
      else mret tt
  end.

(** *** The receive loop of ready: one scanned frame after the other *)
Inductive incoming :=
  | inKeepalive | inChoke | inUnchoke | inInterested | inNotInterested
  | inHave | inBitfield | inRequest | inPiece | inCancel | inOther.

(** A scanned frame: the clock when it arrived, what its length prefix and
    identifier byte say it is, and its bytes. *)
Record frame := { f_now : Z; f_kind : incoming; f_buf : list Byte.byte }.

Definition dispatch (fr : frame) : M unit :=
  modifyPc (set_lastReciveTime (f_now fr));;
  match f_kind fr with
  | inUnchoke => handleUnchoke
  | inBitfield => handleBitfield (f_buf fr)
  | inPiece => handlePiece (f_buf fr)
  | _ => mret tt
  end.

Fixpoint recvLoop (frames : list frame) : M unit :=
  match frames with
  | [] => mret tt
  | fr :: rest => dispatch fr;; recvLoop rest
  end.

End Handlers.

(** ** handshake, handleKeepalive and downloadPiece *)

Section Connection.
Context {T : Types} {Ev : Env}.

(** The inner function literal of handshake: write the request, read 68
    bytes, decode, compare the info hashes. *)
Definition handshakeExchange (pc : peerConn)
  : peerConn * (option peer.Handshake * goerror) :=
  let mi := MetaInfo (torrent pc) in
  let handshakeReq :=
    peer.NewHandshake (replicate 8 Byte.x00) (metainfo.GetInfoHash mi)
      (PeerID (torrent pc)) in
  let '(pc1, werr) :=
    connWrite (pktHandshake (peer.Reserved handshakeReq)
                 (peer.InfoHash handshakeReq) (peer.PeerID handshakeReq)) pc in
  match werr with
  | Some e => (pc1, (None, Some e))
  | None =>
      let '(read, rerr) := connReadFull (conn pc1) 68 in
      match rerr with
      | Some e => (pc1, (None, Some e))
      | None =>
          match HandshakeDecode read with
          | inr e => (pc1, (None, Some e))
          | inl handshakeRes =>
              if negb (bytes_eqb (peer.InfoHash handshakeRes)
                         (peer.InfoHash handshakeReq))
              then (pc1, (None, Some errInfoHashNotServing))
              else (pc1, (Some handshakeRes, None))
          end
      end
  end.

Definition handshake (pc : peerConn)
  : peerConn * (option peer.Handshake * goerror) :=
  let '(pc1, (handshakeRes, err)) := handshakeExchange pc in
  match err with
  | Some e => (connClose pc1, (None, Some e))
  | None => (set_flags true false true false pc1, (handshakeRes, None))
  end.

(** One pass of the keepalive loop after its two-minute sleep: [now] is the
    clock read by the test. *)
Inductive tickEnd := tickTimedOut | tickWriteFailed (e : error).

Definition keepaliveTick (now : Z) (pc : peerConn)
  : peerConn * option tickEnd :=
  if sub64 now (lastReciveTime pc) >? keepaliveTimeout then
    (connClose pc, Some tickTimedOut)
  else
    let '(pc1, err) := connWrite (pktBytes keepaliveData) pc in
    match err with
    | Some e => (connClose pc1, Some (tickWriteFailed e))
    | None => (pc1, None)
    end.

(** What the rest of the program did during one sleep: the clock at wake-up
    and, when frames arrived meanwhile, the time the receive loop stored
    last. *)
Record tick := { tk_now : Z; tk_received : option Z }.

Fixpoint keepaliveLoop (ticks : list tick) (pc : peerConn)
  : peerConn * option tickEnd :=
  match ticks with
  | [] => (pc, None)
  | t :: rest =>
      let pc0 := match tk_received t with
                 | Some r => set_lastReciveTime r pc
                 | None => pc
                 end in
      match keepaliveTick (tk_now t) pc0 with
      | (pc1, Some e) => (pc1, Some e)
      | (pc1, None) => keepaliveLoop rest pc1
      end
  end.

Definition handleKeepalive (start : Z) (ticks : list tick) (pc : peerConn)
  : peerConn * option tickEnd :=
  keepaliveLoop ticks (set_lastReciveTime start pc).

(** The error a receive from downloadedCh or disconnectCh assigns to
    [err]: the value handed over, nil from a closed channel. *)
Definition errOf (r : received goerror) : goerror :=
  match r with
  | gotValue v => v
  | gotClosed => None
  end.

(** Which case of the select fired, and what it received. *)
Inductive selectCase :=
  | selQueue
  | selDownloaded (r : received goerror)
  | selDisconnect (r : received goerror).

(** The two channels the final select receives from. *)
Inductive lateChan := lateDownloaded | lateDisconnect.

(** What the concurrently running receive goroutine had done whenever
    downloadPiece looked: the tracker as iteration [i] saw it, the select
    case that fired in iteration [i], and the channel and the receive of
    the final select. *)
Record schedule := {
  trackerAt : Z -> PieceStates;
  selectAt : Z -> selectCase;
  finalChan : lateChan;
  finalGot : received goerror
}.

(** The value the final select assigns to [err]. *)
Definition finalSelect (sch : schedule) : goerror := errOf (finalGot sch).

(** [err = <-pc.downloadedCh] and [err = <-pc.disconnectCh]: the channel
    of the connection records the handover, or the close, that the receive
    goroutine made and this goroutine has now seen. *)
Definition recvDownloaded (r : received goerror) (pc : peerConn)
  : peerConn * goerror :=
  (set_downloadedCh (chanRecv r (downloadedCh pc)) pc, errOf r).
Definition recvDisconnect (r : received goerror) (pc : peerConn)
  : peerConn * goerror :=
  (set_disconnectCh (chanRecv r (disconnectCh pc)) pc, errOf r).

Inductive loopExit :=
  | loopEnd (err : goerror)
  | loopReturn (err : goerror).

(** The block length computed in iteration [i]. *)
Definition blockLengthOf (pieceLength blockCount i : Z) : Z :=
  if i =? sub64 blockCount 1
  then to_uint32 (sub64 pieceLength (mul64 blockSize i))
  else blockSize.

Definition buildRequest (index offset blockLength : Z) : message.Request :=
  {| message.ReqIndex := to_uint32 index;
     message.ReqBegin := to_uint32 offset;
     message.ReqLength := blockLength |}.

(** [for i := 0; i < blockCount; i++]: [n] is the number of iterations
    left. *)
Fixpoint requestLoop (n : nat) (i index pieceLength blockCount : Z)
    (sch : schedule) (pc : peerConn) : peerConn * loopExit :=
  match n with
  | O => (pc, loopEnd None)
  | S n' =>
      let offset := mul64 blockSize i in
      if isBlockDone (trackerAt sch i) index offset then
        requestLoop n' (i + 1) index pieceLength blockCount sch pc
      else
        let blockLength := blockLengthOf pieceLength blockCount i in
        let '(pc1, err) :=
          match selectAt sch i with
          | selQueue =>
              let q := blockQueueCh pc in
              (set_blockQueueCh
                 {| tokens := tokens q + 1; qstate := qstate q |} pc, None)
          | selDownloaded r => recvDownloaded r pc
          | selDisconnect r => recvDisconnect r pc
          end in
        match err with
        | Some e => (connClose pc1, loopReturn (Some e))
        | None =>
            let '(pc2, werr) :=
              connWrite (pktRequest (buildRequest index offset blockLength))
                pc1 in
            match werr with
            | Some e => (pc2, loopEnd (Some e))
            | None =>
                requestLoop n' (i + 1) index pieceLength blockCount sch pc2
            end
        end
  end.

Definition closeQueue (pc : peerConn) : peerConn :=
  set_blockQueueCh
    {| tokens := tokens (blockQueueCh pc); qstate := chClosed |} pc.

(** The select after the loop. *)
Definition finalReceive (sch : schedule) (pc : peerConn)
  : peerConn * goerror :=
  match finalChan sch with
  | lateDownloaded => recvDownloaded (finalGot sch) pc
  | lateDisconnect => recvDisconnect (finalGot sch) pc
  end.

(** downloadPiece; [None] is the panic of indexing the tracker's states.
    The connection it returns is the one this goroutine has written to and
    closed; its downloadedCh and disconnectCh hold what this goroutine
    received from them, and are marked closed only where a receive found
    them so: the receive goroutine closes downloadedCh right after the
    verdict it sends (line 418), which may be before or after this
    function returns. *)
Definition downloadPiece (index : Z) (sch : schedule) (pc : peerConn)
  : option (peerConn * goerror) :=
  let pieceLength :=
    to_int64 (metainfo.GetPieceLength (MetaInfo (torrent pc)) index) in
  let pc0 := set_blockQueueCh {| tokens := 0; qstate := chOpen |}
               (set_downloadedCh makeChan pc) in
  match ps_blockCount (pieceStates (torrent pc0)) index with
  | None => None
  | Some blockCount =>
      match requestLoop (Z.to_nat blockCount) 0 index pieceLength blockCount
              sch pc0 with
      | (pc1, loopReturn err) => Some (closeQueue pc1, err)
      | (pc1, loopEnd _) =>
          let '(pc2, err) := finalReceive sch pc1 in
          let pc3 := match err with
                     | Some _ => connClose pc2
                     | None => pc2
                     end in
          Some (closeQueue pc3, err)
      end
  end.

(** The Request packets among what was written to the connection. *)
Definition requestsOf (ps : list packet) : list message.Request :=
  omap (fun p => match p with pktRequest r => Some r | _ => None end) ps.

End Connection.

(** ** The properties stated about the mapping, as definitions *)

(** [f]'s byte range contains the torrent offset [off]. *)
Definition inRange (off : Z) (f : metainfo.FileDetail) : Prop :=
  metainfo.Begin f <= off < metainfo.End f.

(** The file ranges are ordered, contiguous and gap-free from [start] on. *)
Fixpoint contiguousFrom (start : Z) (fds : list metainfo.FileDetail) : Prop :=
  match fds with
  | [] => True
  | f :: rest =>
      metainfo.Begin f = start /\ metainfo.Begin f <= metainfo.End f /\
      contiguousFrom (metainfo.End f) rest
  end.

(** Where the last file ends. *)
Fixpoint torrentEnd (start : Z) (fds : list metainfo.FileDetail) : Z :=
  match fds with
  | [] => start
  | f :: rest => torrentEnd (metainfo.End f) rest
  end.

(** The block-relative sub-ranges start at [from], each begins where the
    previous one ended, none is negative, and the last ends at [to]. *)
Fixpoint chained (from : Z) (fbs : list fileBlock) (to : Z) : Prop :=
  match fbs with
  | [] => from = to
  | fb :: rest =>
      blockBegin fb = from /\ blockBegin fb <= blockEnd fb /\
      chained (blockEnd fb) rest to
  end.

Definition totalBytes (fbs : list fileBlock) : Z :=
  foldr (fun fb acc => (blockEnd fb - blockBegin fb) + acc) 0 fbs.

Section Views.
Context {T : Types}.

(** The four choke/interest flags of a connection. *)
Definition flags (pc : peerConn) : bool * bool * bool * bool :=
  (amChoking pc, amInterested pc, peerChoking pc, peerInterested pc).

(** What decides the readiness signal: the readyEnd flag, the channel, and
    whether ready still waits for the signal. *)
Definition rview (s : State) : bool * chan bool * nat :=
  (readyEnd (st_pc s), st_readyCh s, onReady (st_receivers s)).

(** The computation [m] leaves [view] of the state as it was, however it
    ends. *)
Definition preserves {B A} (view : State -> B) (m : M A) : Prop :=
  forall s, view (outState (m s)) = view s.

End Views.

(** The Request the specification expects for block [j] of a piece: offset
    blockSize * j, length blockSize, except for the last block, which takes
    what remains of the piece. *)
Definition requestFor (index pieceLength blockCount j : Z) : packet :=
  pktRequest
    {| message.ReqIndex := index;
       message.ReqBegin := blockSize * j;
       message.ReqLength :=
         if j =? blockCount - 1
         then pieceLength - blockSize * (blockCount - 1)
         else blockSize |}.

(** ** A concrete environment, to run the code on concrete inputs *)

Module Example.

(** Modelled from the spec: the piece-state tracker (pieceStates), which is
    defined outside peer_conn.go. Section 3 of the specification: per piece
    a bit per block; a piece is done iff all its blocks are done; marking a
    block done is idempotent. A block is named by its offset in the piece. *)
Definition tracker : Type := list (list bool).

Definition tr_setBlockDone (t : tracker) (index offset : Z) : tracker :=
  if (0 <=? index) && (0 <=? offset) then
    alter (fun bits => <[Z.to_nat (offset / blockSize) := true]> bits)
      (Z.to_nat index) t
  else t.

Definition tr_isBlockDone (t : tracker) (index offset : Z) : bool :=
  if (0 <=? index) && (0 <=? offset) then
    match t !! Z.to_nat index with
    | Some bits => default false (bits !! Z.to_nat (offset / blockSize))
    | None => false
    end
  else false.

Definition tr_isPieceDone (t : tracker) (index : Z) : bool :=
  if 0 <=? index then
    match t !! Z.to_nat index with
    | Some bits => forallb id bits
    | None => false
    end
  else false.

Definition tr_blockCount (t : tracker) (index : Z) : option Z :=
  (fun bits => Z.of_nat (length bits)) <$> index_at t index.

(** A disk: the regular files by name, in the order of their creation, and
    the names the system refuses to open for writing. *)
Record disk := {
  files : list (string * list Byte.byte);
  denied : list string
}.

Fixpoint lookupFile (fs : list (string * list Byte.byte)) (name : string)
  : option (list Byte.byte) :=
  match fs with
  | [] => None
  | (n, c) :: rest => if String.eqb n name then Some c else lookupFile rest name
  end.

Fixpoint storeFile (fs : list (string * list Byte.byte)) (name : string)
    (content : list Byte.byte) : list (string * list Byte.byte) :=
  match fs with
  | [] => [(name, content)]
  | (n, c) :: rest =>
      if String.eqb n name then (n, content) :: rest
      else (n, c) :: storeFile rest name content
  end.

Definition putAt (old data : list Byte.byte) (off : nat) : list Byte.byte :=
  take off (old ++ replicate (off - length old) Byte.x00) ++ data ++
  drop (off + length data) old.

Definition d_OpenFile (d : disk) (name : string) : disk * goerror :=
  if existsb (String.eqb name) (denied d)
  then (d, Some (errExternal "permission denied"))
  else match lookupFile (files d) name with
       | Some _ => (d, None)
       | None => ({| files := storeFile (files d) name [];
                     denied := denied d |}, None)
       end.

Definition d_WriteAt (d : disk) (name : string) (data : list Byte.byte)
    (off : Z) : disk * goerror :=
  match lookupFile (files d) name with
  | Some old =>
      if off <? 0 then (d, Some (errExternal "negative offset"))
      else ({| files := storeFile (files d) name (putAt old data (Z.to_nat off));
               denied := denied d |}, None)
  | None => (d, Some (errExternal "file already closed"))
  end.

(** A name is a directory when some file lives below it. *)
Definition isDir (d : disk) (name : string) : bool :=
  existsb (fun kv => String.prefix (name +:+ "/") kv.1) (files d).

Definition d_Open (d : disk) (name : string) : goerror :=
  match lookupFile (files d) name with
  | Some _ => None
  | None => if isDir d name then None
            else Some (errExternal "no such file or directory")
  end.

Definition d_Seek (d : disk) (name : string) (off : Z) : goerror :=
  if off <? 0 then Some (errExternal "invalid argument") else None.

Definition d_CopyN (d : disk) (name : string) (off n : Z)
  : list Byte.byte * goerror :=
  match lookupFile (files d) name with
  | Some content =>
      let data := take (Z.to_nat n) (drop (Z.to_nat off) content) in
      (data, if Z.of_nat (length data) <? n then Some errEOF else None)
  | None => ([], Some (errExternal "is a directory"))
  end.

Definition beUint32 (bs : list Byte.byte) : Z :=
  fold_left (fun acc b => acc * 256 + Z.of_N (Byte.to_N b)) bs 0.

(** The wire layouts of the peer protocol: a 68-byte handshake (19 and the
    protocol name, 8 reserved bytes, the info hash, the peer id); frames of
    a 4-byte length, an identifier byte and the payload. *)
Definition decodeHandshake (bs : list Byte.byte) : peer.Handshake + error :=
  if (length bs =? 68)%nat then
    inl {| peer.Reserved := take 8 (drop 20 bs);
           peer.InfoHash := take 20 (drop 28 bs);
           peer.PeerID := take 20 (drop 48 bs) |}
  else inr (errExternal "handshake length").

Definition bitsOf (b : Byte.byte) : list bool :=
  (fun k => N.testbit (Byte.to_N b) (7 - k)) <$> [0; 1; 2; 3; 4; 5; 6; 7]%N.

Definition decodeBitfield (bs : list Byte.byte) : Bitfield :=
  let bits := mjoin (bitsOf <$> drop 5 bs) in
  omap (fun '(i, b) => if b : bool then Some (Z.of_nat i) else None)
    (imap (fun i b => (i, b)) bits).

Definition decodePiece (bs : list Byte.byte) : message.Piece :=
  {| message.Index := beUint32 (take 4 (drop 5 bs));
     message.Begin := beUint32 (take 4 (drop 9 bs));
     message.Block := drop 13 bs |}.

(** Not SHA-1: a stand-in digest, enough to run the control flow. *)
Definition toyDigest (bs : list Byte.byte) : list Byte.byte := take 20 bs.

#[export] Instance types : Types := {| PieceStates := tracker; FS := disk |}.

#[export] Instance env : Env := {|
  ps_size := fun t => Z.of_nat (length t);
  ps_isFinish := tr_isPieceDone;
  ps_blockCount := tr_blockCount;
  isBlockDone := tr_isBlockDone;
  setBlockDone := tr_setBlockDone;
  isPieceDone := tr_isPieceDone;
  osOpenFile := d_OpenFile;
  osWriteAt := d_WriteAt;
  osOpen := d_Open;
  osSeek := d_Seek;
  osCopyN := d_CopyN;
  connWriteErr := fun _ _ => None;
  connReadFull := fun _ n => (replicate (Z.to_nat n) Byte.x00, None);
  HandshakeDecode := decodeHandshake;
  BitfieldDecode := decodeBitfield;
  PieceDecode := decodePiece;
  sha1Sum := toyDigest
|}.

Definition fd (p : list string) (b e : Z) : metainfo.FileDetail :=
  {| metainfo.Path := p; metainfo.Begin := b; metainfo.End := e |}.

Definition fileOf (f : metainfo.FileDetail) : metainfo.File :=
  {| metainfo.Length := metainfo.End f - metainfo.Begin f;
     metainfo.FilePath := metainfo.Path f |}.

(** A multi-file torrent over the given file ranges. *)
Definition multiFile (pieceLength : Z) (pieces : list (list Byte.byte))
    (fds : list metainfo.FileDetail) : metainfo.MetaInfo :=
  {| metainfo.info := {| metainfo.PieceLength := pieceLength;
                         metainfo.Pieces := pieces;
                         metainfo.Name := "t";
                         metainfo.Files := fileOf <$> fds |};
     metainfo.GetFileDetails := fds;
     metainfo.GetPieceLength := fun _ => pieceLength;
     metainfo.GetInfoHash := replicate 20 Byte.x00 |}.

Definition newPeerConn (mi : metainfo.MetaInfo) (t : tracker) : peerConn :=
  {| torrent := {| MetaInfo := mi; PeerID := replicate 20 Byte.x01;
                   Path := "dl"; pieceStates := t |};
     conn := {| written := []; closeCalls := 0 |};
     amChoking := false; amInterested := false;
     peerChoking := false; peerInterested := false;
     lastReciveTime := 0; bitfield := None; readyEnd := false;
     downloadedCh := makeChan; disconnectCh := makeChan;
     blockQueueCh := {| tokens := 1; qstate := chOpen |} |}.

(** Both other goroutines wait: ready for the readiness signal, a
    downloadPiece for a verdict or a disconnect. *)
Definition waiting : receivers :=
  {| onReady := 1; onDownloaded := 1; onDisconnect := 1 |}.
(** Nobody receives: ready has timed out, no downloadPiece is running. *)
Definition gone : receivers :=
  {| onReady := 0; onDownloaded := 0; onDisconnect := 0 |}.

Definition newState (pc : peerConn) (d : disk) : State :=
  {| st_pc := pc; st_readyCh := makeChan; st_receivers := waiting;
     st_fs := d; st_calls := []; st_sha1 := [] |}.

(** A Piece frame: length prefix (never read by the decoder, left zero),
    identifier 7, index, begin, block. *)
Definition pieceFrame (index begin : Byte.byte) (block : list Byte.byte)
  : list Byte.byte :=
  [Byte.x00; Byte.x00; Byte.x00; Byte.x00; Byte.x07;
   Byte.x00; Byte.x00; Byte.x00; index;
   Byte.x00; Byte.x00; Byte.x00; begin] ++ block.

(** Three files [0,10), [10,30), [30,60) in one piece of 64 bytes; the
    system refuses to open the second one. A block over [5,55). *)
Definition threeFiles : list metainfo.FileDetail :=
  [fd ["a"] 0 10; fd ["b"] 10 30; fd ["c"] 30 60].
Definition deniedState : State :=
  newState (newPeerConn (multiFile 64 [] threeFiles) [[false]])
    {| files := []; denied := ["dl/b"] |}.
Definition block5to55 : list Byte.byte :=
  pieceFrame Byte.x00 Byte.x05 (replicate 50 Byte.x2a).

(** One file of 4 bytes, one piece, one block; the expected piece hash is
    the digest of the block. *)
Definition fourBytes : list Byte.byte := [Byte.x67; Byte.x6f; Byte.x70; Byte.x68].
Definition oneFileState (p : list string) : State :=
  newState (newPeerConn (multiFile 4 [array20 (toyDigest fourBytes)] [fd p 0 4])
              [[false]])
    {| files := []; denied := [] |}.
Definition block0to4 : list Byte.byte := pieceFrame Byte.x00 Byte.x00 fourBytes.

(** A connection to a torrent with another info hash than the all-zero one
    the example network answers with. *)
Definition otherSwarm : peerConn :=
  newPeerConn
    {| metainfo.info := metainfo.info (multiFile 4 [] []);
       metainfo.GetFileDetails := [];
       metainfo.GetPieceLength := fun _ => 4;
       metainfo.GetInfoHash := replicate 20 Byte.xff |} [].

(** A piece of 40000 bytes: three blocks, the tracker has the second. *)
Definition threeBlocks : peerConn :=
  newPeerConn (multiFile 40000 [] [fd ["a.bin"] 0 40000])
    [[false; true; false]].
Definition idleSchedule : schedule :=
  {| trackerAt := fun _ => [[false; true; false]];
     selectAt := fun _ => selQueue;
     finalChan := lateDownloaded;
     finalGot := gotValue None |}.

(** Frames of the receive loop: a bitfield claiming piece 0, an unchoke. *)
Definition bitfieldFrame : frame :=
  {| f_now := 100; f_kind := inBitfield;
     f_buf := [Byte.x00; Byte.x00; Byte.x00; Byte.x02; Byte.x05; Byte.x80] |}.
Definition unchokeFrame : frame :=
  {| f_now := 101; f_kind := inUnchoke;
     f_buf := [Byte.x00; Byte.x00; Byte.x00; Byte.x01; Byte.x01] |}.
Definition freshState : State :=
  newState (newPeerConn (multiFile 4 [] [fd ["a.txt"] 0 4]) [[false]])
    {| files := []; denied := [] |}.

End Example.

(** ** The end of the receive goroutine, and more vocabulary *)

Section ReceiveEnd.
Context {T : Types} {Ev : Env}.

Definition sendDisconnect (v : goerror) : M unit := fun s =>
  let r := st_receivers s in
  match chanSend (0 <? onDisconnect r)%nat v (disconnectCh (st_pc s)) with
  | Some (Some c) =>
      Done tt (set_receivers (metDisconnect r)
                 (set_pc (set_disconnectCh c (st_pc s)) s))
  | Some None => Panicked s
  | None => Blocked s
  end.
Definition closeDisconnect : M unit := fun s =>
  match chanClose (disconnectCh (st_pc s)) with
  | Some c => Done tt (set_pc (set_disconnectCh c (st_pc s)) s)
  | None => Panicked s
  end.

(** What follows the scanning loop in the goroutine of ready: [scanErr] is
    scanner.Err(); a nil one becomes io.EOF. *)
Definition recvEnd (scanErr : goerror) : M unit :=
  let err := match scanErr with
             | None => Some errEOF
             | Some e => Some e
             end in
  sendDisconnect err;;
  closeDisconnect.

(** The receive goroutine of ready: the frames the scanner delivers, then
    the report on disconnectCh. *)
Definition recvGoroutine (frames : list frame) (scanErr : goerror) : M unit :=
  recvLoop frames;;
  recvEnd scanErr.

End ReceiveEnd.

(** A call that only reads. *)
Definition isReadCall (c : oscall) : bool :=
  match c with
  | callOpen _ | callSeek _ _ | callCopyN _ _ => true
  | callOpenFile _ | callWriteAt _ _ _ => false
  end.

(** The calls among [calls] that can change the disk. *)
Definition writeCalls (calls : list oscall) : list oscall :=
  filter (fun c => isReadCall c = false) calls.

(** What a computation that only reads must leave alone: the disk, and the
    record of the calls that can change it. *)
Definition diskView {T : Types} (s : State) : FS * list oscall :=
  (st_fs s, writeCalls (st_calls s)).

(** The two calls writing the FileBlock [f] of [block] below [root]. *)
Definition callsFor (root : string) (block : list Byte.byte) (f : fileBlock)
  : list oscall :=
  let name := gofilepath.Join [root; filepath f] in
  [callOpenFile name;
   callWriteAt name
     (take (Z.to_nat (blockEnd f - blockBegin f))
        (drop (Z.to_nat (blockBegin f)) block))
     (fileSeek f)].

(** The bytes of [block] the FileBlock [f] designates. *)
Definition bytesFor (block : list Byte.byte) (f : fileBlock) : list Byte.byte :=
  take (Z.to_nat (blockEnd f - blockBegin f))
    (drop (Z.to_nat (blockBegin f)) block).

Definition sumZ (l : list Z) : Z := foldr Z.add 0 l.

(** More concrete inputs. *)
Module Sample.

(** A block of 50 bytes, numbered, at torrent offset 5 of a 64-byte piece. *)
Definition numbered : list Byte.byte :=
  (fun n => default Byte.x00 (Byte.of_N (N.of_nat n))) <$> seq 0 50.
Definition piece5to55 : message.Piece :=
  {| message.Index := 0; message.Begin := 5; message.Block := numbered |}.
Definition info3 : metainfo.Info :=
  metainfo.info (Example.multiFile 64 [] Example.threeFiles).

(** The same files with nothing refused, and room in the queue. *)
Definition openState : State :=
  Example.newState
    (Example.newPeerConn (Example.multiFile 64 [] Example.threeFiles)
       [[false; false]])
    {| Example.files := []; Example.denied := [] |}.
Definition numberedFrame : list Byte.byte :=
  Example.pieceFrame Byte.x00 Byte.x05 numbered.

(** No request in flight: an empty, open queue. *)
Definition idleQueueState : State :=
  set_pc (set_blockQueueCh {| tokens := 0; qstate := chOpen |}
            (st_pc openState)) openState.

(** Two ticks after frames that arrived 20 and 110 seconds earlier. *)
Definition liveTicks : list tick :=
  [ {| tk_now := 120; tk_received := Some 100 |};
    {| tk_now := 240; tk_received := Some 130 |} ].

Definition pieceFrameOf (buf : list Byte.byte) : frame :=
  {| f_now := 102; f_kind := inPiece; f_buf := buf |}.

(** The FileBlocks of the numbered block over the three files. *)
Definition blocks5to55 : list fileBlock :=
  [ {| filepath := "a"; fileSeek := 5; blockBegin := 0; blockEnd := 5 |};
    {| filepath := "b"; fileSeek := 0; blockBegin := 5; blockEnd := 25 |};
    {| filepath := "c"; fileSeek := 0; blockBegin := 25; blockEnd := 50 |} ].

(** The one-file torrent of four bytes with its file on the disk, holding
    the right bytes or others. *)
Definition storedState (content : list Byte.byte) : State :=
  Example.newState (st_pc (Example.oneFileState ["a.txt"]))
    {| Example.files := [("dl/a.txt", content)]; Example.denied := [] |}.
Definition piece0 : message.Piece :=
  {| message.Index := 0; message.Begin := 0;
     message.Block := Example.fourBytes |}.

(** Frames the loop only takes the arrival time of: a Choke and a Have. *)
Definition chokeFrame : frame :=
  {| f_now := 98; f_kind := inChoke;
     f_buf := [Byte.x00; Byte.x00; Byte.x00; Byte.x01; Byte.x00] |}.
Definition haveFrame : frame :=
  {| f_now := 99; f_kind := inHave;
     f_buf := [Byte.x00; Byte.x00; Byte.x00; Byte.x05; Byte.x04;
               Byte.x00; Byte.x00; Byte.x00; Byte.x00] |}.
(** A bitfield that claims no piece. *)
Definition emptyBitfieldFrame : frame :=
  {| f_now := 100; f_kind := inBitfield;
     f_buf := [Byte.x00; Byte.x00; Byte.x00; Byte.x02; Byte.x05; Byte.x00] |}.
(** The connection once an earlier bitfield has made it interested. *)
Definition interestedState : State :=
  set_pc (set_amInterested true (st_pc Example.freshState)) Example.freshState.

End Sample.

(** * Properties *)

(** ** Machine integers *)

Lemma wrap64_id (z : Z) : in_int64 z -> wrap64 z = z.
Proof.
  unfold in_int64, wrap64. intros Hz.
  rewrite Z.mod_small; lia.
Qed.

Lemma bytes_eqb_eq (a b : list Byte.byte) : bytes_eqb a b = true <-> a = b.
Proof.
  revert b. induction a as [|x a IH]; intros [|y b]; simpl; try easy.
  rewrite andb_true_iff, IH. split.
  - intros [Hxy ->]. f_equal. by apply Byte.byte_dec_bl.
  - intros [= -> ->]. split; [by apply Byte.byte_dec_lb | done].
Qed.

(** ** getWriteFile *)

Lemma getWriteFile_from_spec (off : Z) (fds : list metainfo.FileDetail) (i : Z) :
  0 <= i ->
  let r := getWriteFile_from i off fds in
  (r = -1 /\ Forall (fun f => ~ inRange off f) fds) \/
  (i <= r < i + Z.of_nat (length fds) /\
   exists f, fds !! Z.to_nat (r - i) = Some f /\ inRange off f /\
     Forall (fun g => ~ inRange off g) (take (Z.to_nat (r - i)) fds)).
Proof.
  revert i. induction fds as [|f rest IH]; intros i Hi; simpl.
  - left. split; [done | constructor].
  - destruct ((metainfo.Begin f <=? off) && (metainfo.End f >? off)) eqn:E.
    + right. apply andb_true_iff in E as [E1 E2].
      split; [lia|]. exists f. replace (i - i) with 0 by lia. simpl.
      split; [done|]. split; [unfold inRange; lia | constructor].
    + assert (Hf : ~ inRange off f).
      { unfold inRange. apply andb_false_iff in E as [E|E]; lia. }
      destruct (IH (i + 1)) as [[-> Hall] | [Hr (g & Hg & Hin & Hbefore)]];
        [lia | left | right].
      * split; [done | by constructor].
      * set (r := getWriteFile_from (i + 1) off rest) in *.
        split; [lia|]. exists g.
        replace (Z.to_nat (r - i)) with (S (Z.to_nat (r - (i + 1)))) by lia.
        simpl. split; [done|]. split; [done | by constructor].
Qed.

Lemma getWriteFile_found (off : Z) (fds : list metainfo.FileDetail) :
  Exists (inRange off) fds ->
  exists f, 0 <= getWriteFile off fds /\
    fds !! Z.to_nat (getWriteFile off fds) = Some f /\ inRange off f.
Proof.
  intros Hex. unfold getWriteFile.
  destruct (getWriteFile_from_spec off fds 0) as [[_ Hall] | [Hr (f & Hf & Hin & _)]];
    [lia | |].
  - exfalso. apply Exists_exists in Hex as (f & Hf & Hin).
    rewrite Forall_forall in Hall. by apply (Hall f).
  - exists f. rewrite Z.sub_0_r in Hf. split; [lia | done].
Qed.

Lemma getWriteFile_none (off : Z) (fds : list metainfo.FileDetail) :
  getWriteFile off fds = -1 <-> Forall (fun f => ~ inRange off f) fds.
Proof.
  unfold getWriteFile.
  destruct (getWriteFile_from_spec off fds 0) as [[Hr Hall] | [Hr (f & Hf & Hin & _)]];
    [lia | done |].
  split; [lia|]. intros Hall. exfalso.
  rewrite Forall_forall in Hall. apply (Hall f); [|done].
  by eapply list_elem_of_lookup_2.
Qed.

(** ** The layout of the files *)

Lemma torrentEnd_ge (start : Z) (fds : list metainfo.FileDetail) :
  contiguousFrom start fds -> start <= torrentEnd start fds.
Proof.
  revert start. induction fds as [|f rest IH]; simpl; intros start; [lia|].
  intros (Hb & Hle & Hrest). specialize (IH _ Hrest). lia.
Qed.

Lemma contiguous_drop (start : Z) (fds : list metainfo.FileDetail) (i : nat)
    (f : metainfo.FileDetail) :
  contiguousFrom start fds -> fds !! i = Some f ->
  exists rest, drop i fds = f :: rest /\
    start <= metainfo.Begin f /\ metainfo.Begin f <= metainfo.End f /\
    contiguousFrom (metainfo.End f) rest /\
    torrentEnd (metainfo.End f) rest = torrentEnd start fds.
Proof.
  revert start i. induction fds as [|g rest IH]; intros start i Hc Hi; [done|].
  destruct Hc as (Hb & Hle & Hrest). destruct i as [|i]; simpl in *.
  - injection Hi as ->. exists rest. repeat split; try done; lia.
  - destruct (IH _ _ Hrest Hi) as (r & Hd & Hs & Hle' & Hc' & He).
    exists r. repeat split; try done; lia.
Qed.

Lemma chained_total (from to : Z) (fbs : list fileBlock) :
  chained from fbs to -> totalBytes fbs = to - from.
Proof.
  revert from. induction fbs as [|fb rest IH]; simpl; intros from; [lia|].
  intros (Hb & _ & Hrest). rewrite (IH _ Hrest). lia.
Qed.

Lemma chained_app (a b c : Z) (xs ys : list fileBlock) :
  chained a xs b -> chained b ys c -> chained a (xs ++ ys) c.
Proof.
  revert a. induction xs as [|x xs IH]; simpl; intros a.
  - by intros ->.
  - intros (H1 & H2 & H3) Hys. repeat split; try done. by apply IH.
Qed.

Lemma walkFiles_cons (f : metainfo.FileDetail) (rest : list metainfo.FileDetail)
    (len bfb seek : Z) (acc : list fileBlock) :
  walkFiles (f :: rest) len bfb seek acc =
  let fb e := {| filepath := gofilepath.Join (metainfo.Path f);
                 fileSeek := sub64 bfb (metainfo.Begin f);
                 blockBegin := seek; blockEnd := e |} in
  if sub64 (metainfo.End f) bfb >=? sub64 len seek
  then acc ++ [fb (add64 seek (sub64 len seek))]
  else walkFiles rest len (metainfo.End f)
         (add64 seek (sub64 (metainfo.End f) bfb))
         (acc ++ [fb (add64 seek (sub64 (metainfo.End f) bfb))]).
Proof. reflexivity. Qed.

(** The walk over the files, started inside the file [f]. *)
Lemma walkFiles_chained (rest : list metainfo.FileDetail) :
  forall (f : metainfo.FileDetail) (len bfb seek : Z) (acc : list fileBlock),
    0 <= metainfo.Begin f -> metainfo.Begin f <= bfb <= metainfo.End f ->
    contiguousFrom (metainfo.End f) rest ->
    torrentEnd (metainfo.End f) rest < 2 ^ 63 ->
    0 <= seek <= len -> len < 2 ^ 63 ->
    bfb + (len - seek) <= torrentEnd (metainfo.End f) rest ->
    exists new, walkFiles (f :: rest) len bfb seek acc = acc ++ new /\
      new <> [] /\ chained seek new len.
Proof.
  induction rest as [|g rest IH]; intros f len bfb seek acc H0 Hin Hc Hend Hseek Hlen Hfit;
    rewrite walkFiles_cons; cbv zeta.
  - simpl in Hend, Hfit. unfold sub64.
    rewrite !(wrap64_id (_ - _)) by (unfold in_int64; lia).
    destruct (_ >=? _) eqn:E; [|lia].
    unfold add64. rewrite wrap64_id by (unfold in_int64; lia).
    eexists. split; [done|]. split; [done|]. simpl. repeat split; lia.
  - simpl in Hc, Hend, Hfit. destruct Hc as (Hgb & Hgle & Hc).
    pose proof (torrentEnd_ge _ _ Hc) as Hge.
    unfold sub64.
    rewrite !(wrap64_id (_ - _)) by (unfold in_int64; lia).
    destruct (_ >=? _) eqn:E.
    + unfold add64. rewrite wrap64_id by (unfold in_int64; lia).
      eexists. split; [done|]. split; [done|]. simpl. repeat split; lia.
    + unfold add64. rewrite !(wrap64_id (_ + _)) by (unfold in_int64; lia).
      edestruct (IH g len (metainfo.End f) (seek + (metainfo.End f - bfb)))
        as (new & Hw & Hne & Hch); try eassumption; try lia.
      rewrite Hw. rewrite <- app_assoc. eexists. split; [done|].
      split; [done|]. simpl. repeat split; try lia. exact Hch.
Qed.

(** ** The block-to-file mapping *)

Lemma fileBlocksOf_multi (i : metainfo.Info) (fds : list metainfo.FileDetail)
    (piece : message.Piece) :
  metainfo.Files i <> [] ->
  fileBlocksOf i fds piece =
    (fun tail => walkFiles tail
       (to_int64 (Z.of_nat (length (message.Block piece))))
       (blockBeginOf i piece) 0 [])
    <$> slice_from fds (getWriteFile (blockBeginOf i piece) fds).
Proof.
  intros Hne. unfold fileBlocksOf.
  destruct (metainfo.Files i); [done|]. simpl.
  by destruct (slice_from _ _).
Qed.

Lemma slice_from_none (fds : list metainfo.FileDetail) (off : Z) :
  slice_from fds (getWriteFile off fds) = None <->
  Forall (fun f => ~ inRange off f) fds.
Proof.
  rewrite <- getWriteFile_none. unfold slice_from, getWriteFile.
  destruct (getWriteFile_from_spec off fds 0) as [[-> _] | [Hr _]]; [lia | done |].
  destruct (_ && _) eqn:E; [split; [done | lia]|].
  apply andb_false_iff in E. lia.
Qed.

(** C10: getWriteFile returns the least index whose file range contains the
    offset, and -1 when no range contains it. handlePiece uses the result
    unchecked: in the multi-file branch the block mapping panics exactly when
    no file range contains the block's offset, and the verification walk
    panics (before any file is read) when none contains the piece's offset. *)
Theorem getWriteFile_least_index_or_panic {T : Types} {Ev : Env}
    (off : Z) (fds : list metainfo.FileDetail) :
  ((getWriteFile off fds = -1 /\ Forall (fun f => ~ inRange off f) fds) \/
   (exists f, index_at fds (getWriteFile off fds) = Some f /\ inRange off f /\
      Forall (fun g => ~ inRange off g)
        (take (Z.to_nat (getWriteFile off fds)) fds))) /\
  (forall (i : metainfo.Info) (piece : message.Piece),
     metainfo.Files i <> [] ->
     (fileBlocksOf i fds piece = None <->
      Forall (fun f => ~ inRange (blockBeginOf i piece) f) fds)) /\
  (forall (piece : message.Piece) (s : State),
     let mi := MetaInfo (torrent (st_pc s)) in
     Forall (fun f => ~ inRange (pieceBeginOf (metainfo.info mi) piece) f)
       (metainfo.GetFileDetails mi) ->
     verifyPiece piece s = Panicked (set_sha1 [] s) /\
     st_calls (set_sha1 [] s) = st_calls s).
Proof.
  split; [|split].
  - unfold getWriteFile.
    destruct (getWriteFile_from_spec off fds 0) as [Hm | [Hr (f & Hf & Hin & Hb)]];
      [lia | by left |].
    right. exists f. rewrite Z.sub_0_r in Hf, Hb. unfold index_at.
    destruct (0 <=? _) eqn:E; [done | lia].
  - intros i piece Hne. rewrite fileBlocksOf_multi by done.
    rewrite fmap_None. apply slice_from_none.
  - intros piece s mi Hall. split; [|done].
    apply getWriteFile_none in Hall.
    unfold verifyPiece, mbind, M_bind, modify, gets. simpl.
    fold mi. rewrite Hall. reflexivity.
Qed.

(** Offset 60 is past the three files [0,10), [10,30), [30,60): -1, and
    the mapping of a block there panics; offset 10 is found in the second
    file. *)
Lemma getWriteFile_least_index_or_panic_witness :
  getWriteFile 60 Example.threeFiles = -1 /\
  getWriteFile 10 Example.threeFiles = 1 /\
  fileBlocksOf (metainfo.info (Example.multiFile 64 [] Example.threeFiles))
    Example.threeFiles
    {| message.Index := 0; message.Begin := 60;
       message.Block := [Byte.x2a] |} = None.
Proof.
  destruct (getWriteFile_least_index_or_panic (Ev := Example.env)
              60 Example.threeFiles) as (_ & Hmap & _).
  split; [reflexivity|]. split; [reflexivity|].
  apply Hmap; [discriminate|].
  repeat constructor; unfold inRange; vm_compute; intros [? ?]; congruence.
Defined.

(** C1: when the file ranges are ordered, contiguous and gap-free and the
    received block lies within them, the FileBlocks computed by handlePiece
    tile the block: the first sub-range starts at 0, each starts where the
    previous one ended, none has negative length (so none overlap), the last
    ends at the block's length, and the lengths add up to it; in the
    single-file and in the multi-file layout, over any number of file
    boundaries. *)
Theorem fileBlocks_tile_block (i : metainfo.Info)
    (fds : list metainfo.FileDetail) (piece : message.Piece) (start : Z) :
  0 <= start ->
  contiguousFrom start fds ->
  torrentEnd start fds < 2 ^ 63 ->
  Exists (inRange (blockBeginOf i piece)) fds ->
  blockBeginOf i piece + Z.of_nat (length (message.Block piece))
    <= torrentEnd start fds ->
  exists fbs, fileBlocksOf i fds piece = Some fbs /\ fbs <> [] /\
    chained 0 fbs (Z.of_nat (length (message.Block piece))) /\
    totalBytes fbs = Z.of_nat (length (message.Block piece)).
Proof.
  intros Hstart Hc Hend Hex Hfit.
  set (bb := blockBeginOf i piece) in *.
  set (len := Z.of_nat (length (message.Block piece))) in *.
  destruct (getWriteFile_found _ _ Hex) as (f & Hidx & Hf & Hin).
  destruct (contiguous_drop _ _ _ _ Hc Hf) as (rest & Hdrop & Hs & Hle & Hc' & He).
  assert (Hlen : to_int64 len = len).
  { apply wrap64_id. unfold in_int64, inRange in *. lia. }
  assert (Hgoal : exists fbs, fileBlocksOf i fds piece = Some fbs /\
            fbs <> [] /\ chained 0 fbs len).
  { destruct (metainfo.Files i) as [|x xs] eqn:Efiles.
    - unfold fileBlocksOf. rewrite Efiles. simpl. fold len. rewrite Hlen.
      eexists. split; [done|]. split; [done|]. simpl. lia.
    - rewrite fileBlocksOf_multi by (by rewrite Efiles). fold bb len.
      rewrite Hlen. unfold slice_from.
      apply lookup_lt_Some in Hf as Hlt.
      destruct (_ && _) eqn:E; [|apply andb_false_iff in E; lia].
      simpl. rewrite Hdrop.
      destruct (walkFiles_chained rest f len bb 0 []) as (new & Hw & Hne & Hch);
        unfold inRange in *; try lia; try done.
      rewrite Hw. by exists new. }
  destruct Hgoal as (fbs & Hfbs & Hne & Hch).
  exists fbs. repeat split; try done.
  rewrite (chained_total _ _ _ Hch). lia.
Qed.

(** A block over torrent offsets [5,55) of three files [0,10), [10,30),
    [30,60): it crosses two file boundaries. *)
Lemma fileBlocks_tile_block_witness :
  let i := metainfo.info (Example.multiFile 64 []
             [Example.fd ["a"] 0 10; Example.fd ["b"] 10 30;
              Example.fd ["c"] 30 60]) in
  let fds := [Example.fd ["a"] 0 10; Example.fd ["b"] 10 30;
              Example.fd ["c"] 30 60] in
  let piece := {| message.Index := 0; message.Begin := 5;
                  message.Block := replicate 50 Byte.x2a |} in
  exists fbs, fileBlocksOf i fds piece = Some fbs /\ fbs <> [] /\
    chained 0 fbs 50 /\ totalBytes fbs = 50.
Proof.
  intros i fds piece.
  assert (Hb : blockBeginOf i piece = 5) by (vm_compute; reflexivity).
  apply (fileBlocks_tile_block i fds piece 0).
  - lia.
  - simpl. lia.
  - simpl. lia.
  - apply Exists_cons_hd. rewrite Hb. unfold inRange. simpl. lia.
  - rewrite Hb. simpl. lia.
Defined.

(** C2: with two files of 10 and 20 bytes, ranges [0,10) and [10,30), a
    received block of 20 bytes at torrent offset 5, that is over [5,25), is
    mapped to exactly two FileBlocks: the first file at seek 5 takes the
    block's bytes [0:5], the second file at seek 0 takes the block's bytes
    [5:20]. *)
Theorem block_over_5_25_splits_in_two (i : metainfo.Info) (p0 p1 : list string)
    (piece : message.Piece) :
  metainfo.Files i <> [] ->
  blockBeginOf i piece = 5 ->
  length (message.Block piece) = 20%nat ->
  fileBlocksOf i [Example.fd p0 0 10; Example.fd p1 10 30] piece =
    Some [ {| filepath := gofilepath.Join p0; fileSeek := 5;
              blockBegin := 0; blockEnd := 5 |};
           {| filepath := gofilepath.Join p1; fileSeek := 0;
              blockBegin := 5; blockEnd := 20 |} ].
Proof.
  intros Hne Hb Hlen. rewrite fileBlocksOf_multi by done.
  rewrite Hb, Hlen. reflexivity.
Qed.

Lemma block_over_5_25_splits_in_two_witness :
  let mi := Example.multiFile 30 []
              [Example.fd ["file0"] 0 10; Example.fd ["file1"] 10 30] in
  fileBlocksOf (metainfo.info mi) (metainfo.GetFileDetails mi)
    {| message.Index := 0; message.Begin := 5;
       message.Block := replicate 20 Byte.x2a |} =
    Some [ {| filepath := "file0"; fileSeek := 5;
              blockBegin := 0; blockEnd := 5 |};
           {| filepath := "file1"; fileSeek := 0;
              blockBegin := 5; blockEnd := 20 |} ].
Proof.
  intros mi.
  apply (block_over_5_25_splits_in_two (metainfo.info mi) ["file0"] ["file1"]).
  - discriminate.
  - vm_compute. reflexivity.
  - reflexivity.
Defined.

(** The second FileBlock does not carry the bytes [5:25] of the block: the
    block has only 20 bytes. *)
Lemma block_over_5_25_second_range_is_not_5_25 :
  let mi := Example.multiFile 30 []
              [Example.fd ["file0"] 0 10; Example.fd ["file1"] 10 30] in
  fileBlocksOf (metainfo.info mi) (metainfo.GetFileDetails mi)
    {| message.Index := 0; message.Begin := 5;
       message.Block := replicate 20 Byte.x2a |} <>
    Some [ {| filepath := "file0"; fileSeek := 5;
              blockBegin := 0; blockEnd := 5 |};
           {| filepath := "file1"; fileSeek := 0;
              blockBegin := 5; blockEnd := 25 |} ].
Proof. vm_compute. discriminate. Qed.

(** ** Handlers: what a computation leaves untouched *)

Section Frame.
Context {T : Types} {Ev : Env} {B : Type} (view : State -> B).

Lemma preserves_ret {A} (a : A) : preserves view (mret a).
Proof. by intros s. Qed.

Lemma preserves_bind {A C} (m : M A) (k : A -> M C) :
  preserves view m -> (forall a, preserves view (k a)) -> preserves view (m ≫= k).
Proof.
  intros Hm Hk s. unfold mbind, M_bind. specialize (Hm s).
  destruct (m s) as [a s'| |]; simpl in *; try done.
  rewrite (Hk a s'). done.
Qed.

Lemma preserves_gets {A} (f : State -> A) : preserves view (gets f).
Proof. by intros s. Qed.

Lemma preserves_panic {A} : preserves view (@panic _ A).
Proof. by intros s. Qed.

Lemma preserves_liftOpt {A} (o : option A) : preserves view (liftOpt o).
Proof. destruct o; [apply preserves_ret | apply preserves_panic]. Qed.

Lemma preserves_modify (f : State -> State) :
  (forall s, view (f s) = view s) -> preserves view (modify f).
Proof. intros Hf s. apply Hf. Qed.

Lemma preserves_if {A} (b : bool) (m1 m2 : M A) :
  preserves view m1 -> preserves view m2 -> preserves view (if b then m1 else m2).
Proof. by destruct b. Qed.

(** A view that does not look at the disk, the calls or the digest. *)
Hypothesis view_fs : forall v c s, view (set_fs v c s) = view s.
Hypothesis view_sha1 : forall v s, view (set_sha1 v s) = view s.

Lemma preserves_openFileM (name : string) : preserves view (openFileM name).
Proof. intros s. unfold openFileM. destruct (osOpenFile _ _). apply view_fs. Qed.

Lemma preserves_writeAtM (name : string) (data : list Byte.byte) (off : Z) :
  preserves view (writeAtM name data off).
Proof. intros s. unfold writeAtM. destruct (osWriteAt _ _ _ _). apply view_fs. Qed.

Lemma preserves_openM (name : string) : preserves view (openM name).
Proof. intros s. apply view_fs. Qed.

Lemma preserves_seekM (name : string) (off : Z) : preserves view (seekM name off).
Proof. intros s. apply view_fs. Qed.

Lemma preserves_copyNM (name : string) (off n : Z) :
  preserves view (copyNM name off n).
Proof. intros s. unfold copyNM. simpl. by rewrite view_sha1, view_fs. Qed.

Lemma preserves_writeFileBlock (root : string) (piece : message.Piece)
    (f : fileBlock) : preserves view (writeFileBlock root piece f).
Proof.
  unfold writeFileBlock. apply preserves_bind; [apply preserves_openFileM|].
  intros [e|]; [apply preserves_ret|].
  apply preserves_bind; [apply preserves_liftOpt|].
  intros data. apply preserves_writeAtM.
Qed.

Lemma preserves_writeFileBlocks (root : string) (piece : message.Piece)
    (fbs : list fileBlock) : preserves view (writeFileBlocks root piece fbs).
Proof.
  induction fbs as [|f rest IH]; simpl; [apply preserves_ret|].
  apply preserves_bind; [apply preserves_writeFileBlock|].
  intros [e|]; [apply preserves_ret | apply IH].
Qed.

Lemma preserves_verifyWalk (root : string) (fds : list metainfo.FileDetail) :
  forall pieceLength fileBegin,
    preserves view (verifyWalk root fds pieceLength fileBegin).
Proof.
  induction fds as [|fd rest IH]; intros pieceLength fileBegin; simpl;
    [apply preserves_ret|].
  apply preserves_bind; [apply preserves_liftOpt|]. intros p0.
  apply preserves_bind; [apply preserves_openM|].
  intros [e|]; [apply preserves_panic|].
  apply preserves_bind; [apply preserves_seekM|].
  intros [e|]; [apply preserves_panic|].
  apply preserves_bind; [apply preserves_copyNM|].
  intros [data [e|]]; simpl.
  - destruct e; try apply preserves_panic.
    apply preserves_if; [apply IH | apply preserves_ret].
  - apply preserves_if; [apply IH | apply preserves_ret].
Qed.

End Frame.

(** ** handlePiece: a failed write *)

Section PieceFailure.
Context {T : Types} {Ev : Env}.

Lemma writeFileBlocks_stops_at_failure (root : string) (piece : message.Piece)
    (pre : list fileBlock) (f : fileBlock) (post : list fileBlock)
    (e : error) (s s' s1 : State) :
  writeFileBlocks root piece pre s = Done None s' ->
  writeFileBlock root piece f s' = Done (Some e) s1 ->
  writeFileBlocks root piece (pre ++ f :: post) s = Done (Some e) s1.
Proof.
  revert s. induction pre as [|x pre IH]; intros s; simpl.
  - intros [= ->] Hf. unfold mbind, M_bind. by rewrite Hf.
  - unfold mbind, M_bind.
    destruct (writeFileBlock root piece x s) as [[ex|] sx| |]; try done.
    intros Hpre Hf. by apply IH.
Qed.

(** C3, as the code has it: when opening or writing one of the block's
    FileBlocks fails, handlePiece sends an error on the piece's completion
    channel (the open channel downloadPiece made), and that error is
    errPieceCheckFailed, the one a failed verification sends. The channel
    is unbuffered: while a downloadPiece still receives from it, the send
    goes through, handlePiece closes the connection and returns; the
    FileBlocks after the failing one are never opened or written ([s1] is
    the state right after the failing call), the block is not marked done
    and no queue slot is released. When no downloadPiece receives any more,
    handlePiece stays parked at the send in state [s1]: nothing is handed
    over and the connection is not closed; the later FileBlocks are not
    written then either. *)
Theorem handlePiece_io_failure (buf : list Byte.byte)
    (pre : list fileBlock) (f : fileBlock) (post : list fileBlock)
    (e : error) (s s' s1 : State) :
  let piece := PieceDecode buf in
  let mi := MetaInfo (torrent (st_pc s)) in
  fileBlocksOf (metainfo.info mi) (metainfo.GetFileDetails mi) piece
    = Some (pre ++ f :: post) ->
  writeFileBlocks (Path (torrent (st_pc s))) piece pre s = Done None s' ->
  writeFileBlock (Path (torrent (st_pc s))) piece f s' = Done (Some e) s1 ->
  cstate (downloadedCh (st_pc s)) = chOpen ->
  ((0 < onDownloaded (st_receivers s))%nat ->
   exists s2, handlePiece buf s = Done tt s2 /\
     sent (downloadedCh (st_pc s2))
       = sent (downloadedCh (st_pc s)) ++ [Some errPieceCheckFailed] /\
     closeCalls (conn (st_pc s2)) = S (closeCalls (conn (st_pc s))) /\
     st_fs s2 = st_fs s1 /\ st_calls s2 = st_calls s1 /\
     torrent (st_pc s2) = torrent (st_pc s) /\
     blockQueueCh (st_pc s2) = blockQueueCh (st_pc s)) /\
  (onDownloaded (st_receivers s) = 0%nat ->
   handlePiece buf s = Blocked s1 /\ st_pc s1 = st_pc s).
Proof.
  intros piece mi Hfbs Hpre Hf Hopen.
  pose proof (writeFileBlocks_stops_at_failure _ _ _ _ post _ _ _ _ Hpre Hf) as Hw.
  assert (Hpc : st_pc s1 = st_pc s).
  { pose proof (preserves_writeFileBlocks st_pc (fun _ _ _ => eq_refl)
                  (Path (torrent (st_pc s))) piece (pre ++ f :: post) s) as Hp.
    by rewrite Hw in Hp. }
  assert (Hrc : st_receivers s1 = st_receivers s).
  { pose proof (preserves_writeFileBlocks st_receivers (fun _ _ _ => eq_refl)
                  (Path (torrent (st_pc s))) piece (pre ++ f :: post) s) as Hp.
    by rewrite Hw in Hp. }
  assert (Hopen1 : cstate (downloadedCh (st_pc s1)) = chOpen) by (by rewrite Hpc).
  split.
  - intros Hrecv.
    assert (Ht : (0 <? onDownloaded (st_receivers s1))%nat = true)
      by (rewrite Hrc; by apply Nat.ltb_lt).
    unfold handlePiece, mbind, M_bind, gets. fold piece mi. rewrite Hfbs. simpl.
    rewrite Hw. unfold sendDownloaded, chanSend.
    eexists. split; [rewrite Hopen1, Ht; reflexivity|].
    simpl. by rewrite Hpc.
  - intros Hnone. split; [|exact Hpc].
    unfold handlePiece, mbind, M_bind, gets. fold piece mi. rewrite Hfbs. simpl.
    rewrite Hw. unfold sendDownloaded, chanSend.
    by rewrite Hopen1, Hrc, Hnone.
Qed.

End PieceFailure.

Lemma deniedState_run :
  exists s2, handlePiece (Ev := Example.env) Example.block5to55 Example.deniedState = Done tt s2 /\
    sent (downloadedCh (st_pc s2)) = [Some errPieceCheckFailed].
Proof. eexists. split; vm_compute; reflexivity. Qed.

(** With the example environment: three files, the second cannot be
    opened. The first FileBlock is written, the second fails, the third is
    never touched. With a downloadPiece receiving, the error is handed over
    and the connection closed; with none, handlePiece is parked, the
    connection open. *)
Lemma handlePiece_io_failure_witness :
  (exists s2, handlePiece (Ev := Example.env) Example.block5to55 Example.deniedState = Done tt s2 /\
     sent (downloadedCh (st_pc s2)) = [Some errPieceCheckFailed] /\
     closeCalls (conn (st_pc s2)) = 1%nat /\
     st_calls s2 = [callOpenFile "dl/a";
                    callWriteAt "dl/a" (replicate 5 Byte.x2a) 5;
                    callOpenFile "dl/b"]) /\
  (exists s1, handlePiece (Ev := Example.env) Example.block5to55
                (set_receivers Example.gone Example.deniedState) = Blocked s1 /\
     sent (downloadedCh (st_pc s1)) = [] /\
     closeCalls (conn (st_pc s1)) = 0%nat /\
     st_calls s1 = [callOpenFile "dl/a";
                    callWriteAt "dl/a" (replicate 5 Byte.x2a) 5;
                    callOpenFile "dl/b"]).
Proof.
  split.
  - edestruct (handlePiece_io_failure (Ev := Example.env) Example.block5to55
                 [ {| filepath := "a"; fileSeek := 5; blockBegin := 0; blockEnd := 5 |} ]
                 {| filepath := "b"; fileSeek := 0; blockBegin := 5; blockEnd := 25 |}
                 [ {| filepath := "c"; fileSeek := 0; blockBegin := 25; blockEnd := 50 |} ]
                 (errExternal "permission denied") Example.deniedState)
      as [Hyes _].
    + vm_compute. reflexivity.
    + vm_compute. reflexivity.
    + vm_compute. reflexivity.
    + vm_compute. reflexivity.
    + destruct Hyes as (s2 & Hrun & Hsent & Hclose & _ & Hcalls & _).
      { vm_compute. lia. }
      exists s2. split; [exact Hrun|]. split; [exact Hsent|].
      split; [exact Hclose|].
      etransitivity; [exact Hcalls|]. vm_compute. reflexivity.
  - edestruct (handlePiece_io_failure (Ev := Example.env) Example.block5to55
                 [ {| filepath := "a"; fileSeek := 5; blockBegin := 0; blockEnd := 5 |} ]
                 {| filepath := "b"; fileSeek := 0; blockBegin := 5; blockEnd := 25 |}
                 [ {| filepath := "c"; fileSeek := 0; blockBegin := 25; blockEnd := 50 |} ]
                 (errExternal "permission denied")
                 (set_receivers Example.gone Example.deniedState))
      as [_ Hno].
    + vm_compute. reflexivity.
    + vm_compute. reflexivity.
    + vm_compute. reflexivity.
    + vm_compute. reflexivity.
    + destruct Hno as [Hrun Hpc]; [reflexivity|].
      eexists. split; [exact Hrun|].
      split; [|split]; vm_compute; reflexivity.
Defined.

(** The error sent after the failed open is not distinct from the one a
    failed verification sends: it is errPieceCheckFailed itself. *)
Lemma io_failure_error_is_piece_check_failed :
  ~ (exists s2 e, handlePiece (Ev := Example.env) Example.block5to55 Example.deniedState = Done tt s2 /\
       last (sent (downloadedCh (st_pc s2))) = Some (Some e) /\
       e <> errPieceCheckFailed).
Proof.
  destruct deniedState_run as (s2 & Hrun & Hsent).
  intros (s2' & e & Hrun' & Hlast & Hne).
  rewrite Hrun in Hrun'. injection Hrun' as <-.
  rewrite Hsent in Hlast. simpl in Hlast. congruence.
Qed.

(** ** handlePiece: verification of a finished piece *)

(** C4, at an input where the code departs from it: a torrent whose only
    file is dir/a.txt. The block is written to dl/dir/a.txt; the
    verification opens dl/dir, the first path segment only, so nothing of
    what was written reaches the digest and the read fails. *)
Theorem verification_opens_first_path_segment :
  exists s', handlePiece (Ev := Example.env) Example.block0to4
               (Example.oneFileState ["dir"; "a.txt"]) = Panicked s' /\
    st_calls s' = [callOpenFile "dl/dir/a.txt";
                   callWriteAt "dl/dir/a.txt" Example.fourBytes 0;
                   callOpen "dl/dir"; callSeek "dl/dir" 0;
                   callCopyN "dl/dir" 4] /\
    st_sha1 s' = [].
Proof. eexists. split; [|split]; vm_compute; reflexivity. Qed.

(** The same piece in a file without directories is re-read in full and
    found correct. *)
Lemma verification_of_flat_file :
  exists s', handlePiece (Ev := Example.env) Example.block0to4
               (Example.oneFileState ["a.txt"]) = Done tt s' /\
    st_calls s' = [callOpenFile "dl/a.txt";
                   callWriteAt "dl/a.txt" Example.fourBytes 0;
                   callOpen "dl/a.txt"; callSeek "dl/a.txt" 0;
                   callCopyN "dl/a.txt" 4] /\
    st_sha1 s' = Example.fourBytes /\
    downloadedCh (st_pc s') = {| sent := [None]; cstate := chClosed |}.
Proof. eexists. split; [|split; [|split]]; vm_compute; reflexivity. Qed.

(** ** The readiness signal *)

Section Ready.
Context {T : Types} {Ev : Env}.

Lemma rview_modifyPc (f : peerConn -> peerConn) :
  (forall pc, readyEnd (f pc) = readyEnd pc) -> preserves rview (modifyPc f).
Proof. intros Hf s. unfold rview. simpl. by rewrite Hf. Qed.

Lemma rview_sendDownloaded (v : goerror) : preserves rview (sendDownloaded v).
Proof.
  intros s. unfold sendDownloaded.
  by destruct (chanSend _ _ _) as [[c|]|].
Qed.

Lemma rview_closeDownloaded : preserves rview closeDownloaded.
Proof. intros s. unfold closeDownloaded. by destruct (chanClose _). Qed.

Lemma rview_dequeue : preserves rview dequeue.
Proof.
  intros s. unfold dequeue.
  destruct (0 <? _); [done|]. by destruct (qstate _).
Qed.

Lemma rview_writeFileBlocks (root : string) (piece : message.Piece)
    (fbs : list fileBlock) : preserves rview (writeFileBlocks root piece fbs).
Proof. by apply preserves_writeFileBlocks. Qed.

Lemma rview_verifyWalk (root : string) (fds : list metainfo.FileDetail)
    (pieceLength fileBegin : Z) :
  preserves rview (verifyWalk root fds pieceLength fileBegin).
Proof. by apply preserves_verifyWalk. Qed.

Create HintDb frame.
Hint Resolve preserves_ret preserves_gets preserves_panic preserves_liftOpt
  rview_sendDownloaded rview_closeDownloaded rview_dequeue
  rview_writeFileBlocks rview_verifyWalk : frame.

(** Walks down a handler: known pieces by the hints, updates of the
    connection by computation, binds and branches structurally. *)
Ltac frame :=
  repeat first
    [ solve [auto with frame]
    | apply rview_modifyPc; intros ?; reflexivity
    | apply preserves_modify; intros ?; reflexivity
    | match goal with
      | |- preserves _ (if _ then _ else _) => apply preserves_if
      | |- preserves _ (match ?x with _ => _ end) => destruct x
      | |- preserves _ (_ ≫= _) => apply preserves_bind; [|intros ?]
      end ].

Lemma rview_verifyPiece (piece : message.Piece) :
  preserves rview (verifyPiece piece).
Proof. unfold verifyPiece. frame. Qed.

Hint Resolve rview_verifyPiece : frame.

Lemma rview_handlePiece (buf : list Byte.byte) :
  preserves rview (handlePiece buf).
Proof. unfold handlePiece. frame. Qed.

Lemma rview_handleBitfield (buf : list Byte.byte) :
  preserves rview (handleBitfield buf).
Proof. unfold handleBitfield. frame. Qed.

Hint Resolve rview_handlePiece rview_handleBitfield : frame.

Lemma unchoke_or_not (k : incoming) : {k = inUnchoke} + {k <> inUnchoke}.
Proof. destruct k; first [by left | by right]. Qed.

(** Once the signal has been given, no frame changes the channel. *)
Lemma rview_handleUnchoke_signalled (s : State) :
  readyEnd (st_pc s) = true -> rview (outState (handleUnchoke s)) = rview s.
Proof.
  intros Hr. unfold handleUnchoke, mbind, M_bind, modifyPc, modify, gets.
  simpl. rewrite Hr. simpl. unfold rview. simpl. by rewrite Hr.
Qed.

Lemma rview_dispatch_other (fr : frame) :
  f_kind fr <> inUnchoke -> preserves rview (dispatch fr).
Proof.
  intros Hk. unfold dispatch.
  apply preserves_bind; [frame|]. intros _.
  destruct (f_kind fr); try done; frame.
Qed.

Lemma rview_dispatch_signalled (fr : frame) (s : State) :
  readyEnd (st_pc s) = true -> rview (outState (dispatch fr s)) = rview s.
Proof.
  intros Hr. destruct (unchoke_or_not (f_kind fr)) as [Hk|Hk].
  - unfold dispatch. rewrite Hk. unfold mbind, M_bind, modifyPc, modify.
    rewrite rview_handleUnchoke_signalled; done.
  - by apply rview_dispatch_other.
Qed.

Lemma recvLoop_app (a b : list frame) (s : State) :
  recvLoop (a ++ b) s =
  match recvLoop a s with
  | Done _ s' => recvLoop b s'
  | Panicked s' => Panicked s'
  | Blocked s' => Blocked s'
  end.
Proof.
  revert s. induction a as [|fr a IH]; intros s; simpl; [done|].
  unfold mbind, M_bind. destruct (dispatch fr s); done.
Qed.

Lemma rview_recvLoop_other (frames : list frame) :
  Forall (fun f => f_kind f <> inUnchoke) frames ->
  preserves rview (recvLoop frames).
Proof.
  induction 1 as [|fr rest Hk _ IH]; simpl; [apply preserves_ret|].
  apply preserves_bind; [by apply rview_dispatch_other | done].
Qed.

Lemma rview_recvLoop_signalled (frames : list frame) (s : State) :
  readyEnd (st_pc s) = true -> rview (outState (recvLoop frames s)) = rview s.
Proof.
  revert s. induction frames as [|fr rest IH]; intros s Hr; simpl; [done|].
  unfold mbind, M_bind.
  pose proof (rview_dispatch_signalled fr s Hr) as Hd.
  destruct (dispatch fr s) as [[] s'| |]; simpl in *; try done.
  rewrite IH; [done|]. unfold rview in Hd. congruence.
Qed.

(** An Unchoke after the first: the flag is cleared and nothing else
    happens. *)
Lemma handleUnchoke_signalled (s : State) :
  readyEnd (st_pc s) = true ->
  handleUnchoke s = Done tt (set_pc (set_peerChoking false (st_pc s)) s).
Proof.
  intros Hr. unfold handleUnchoke, mbind, M_bind, modifyPc, modify, gets.
  simpl. by rewrite Hr.
Qed.

(** The first Unchoke while ready waits: the signal carries amInterested,
    the channel is closed, the flag is set. *)
Lemma dispatch_first_unchoke (fr : frame) (s : State) :
  f_kind fr = inUnchoke ->
  readyEnd (st_pc s) = false -> st_readyCh s = makeChan ->
  (0 < onReady (st_receivers s))%nat ->
  exists s2, dispatch fr s = Done tt s2 /\
    readyEnd (st_pc s2) = true /\
    st_readyCh s2 = {| sent := [amInterested (st_pc s)]; cstate := chClosed |} /\
    peerChoking (st_pc s2) = false.
Proof.
  intros Hk Hr Hch Hrc. apply Nat.ltb_lt in Hrc. unfold dispatch. rewrite Hk.
  unfold handleUnchoke, mbind, M_bind, modifyPc, modify, gets. simpl.
  rewrite Hr. simpl.
  destruct (amInterested (st_pc s)) eqn:Ei;
    unfold sendReady, closeReady, chanSend, chanClose; simpl;
    rewrite Hch, Hrc; simpl;
    eexists; (split; [reflexivity|]); done.
Qed.

(** The first Unchoke after ready has given up: the receive goroutine is
    parked at the send, nothing is handed over. *)
Lemma dispatch_first_unchoke_parked (fr : frame) (s : State) :
  f_kind fr = inUnchoke ->
  readyEnd (st_pc s) = false -> st_readyCh s = makeChan ->
  onReady (st_receivers s) = 0%nat ->
  exists s2, dispatch fr s = Blocked s2 /\ st_readyCh s2 = makeChan.
Proof.
  intros Hk Hr Hch Hrc. unfold dispatch. rewrite Hk.
  unfold handleUnchoke, mbind, M_bind, modifyPc, modify, gets. simpl.
  rewrite Hr. simpl.
  destruct (amInterested (st_pc s)) eqn:Ei;
    unfold sendReady, closeReady, chanSend, chanClose; simpl;
    rewrite Hch, Hrc; simpl;
    eexists; (split; [reflexivity|]); done.
Qed.

Lemma recvLoop_signal_bound (frames : list frame) (s : State) :
  readyEnd (st_pc s) = false -> st_readyCh s = makeChan ->
  (length (sent (st_readyCh (outState (recvLoop frames s)))) <= 1)%nat.
Proof.
  revert s. induction frames as [|fr rest IH]; intros s Hr Hch; simpl.
  - rewrite Hch. simpl. lia.
  - unfold mbind, M_bind.
    destruct (unchoke_or_not (f_kind fr)) as [Hk|Hk].
    + destruct (onReady (st_receivers s)) as [|n] eqn:Hrc.
      * destruct (dispatch_first_unchoke_parked fr s Hk Hr Hch Hrc)
          as (s2 & -> & Hch2).
        simpl. rewrite Hch2. simpl. lia.
      * destruct (dispatch_first_unchoke fr s Hk Hr Hch) as (s2 & -> & Hr2 & Hch2 & _);
          [lia|].
        pose proof (rview_recvLoop_signalled rest s2 Hr2) as Hrest.
        injection Hrest as _ -> _. rewrite Hch2. simpl. lia.
    + pose proof (rview_dispatch_other fr Hk s) as Hd.
      injection Hd as Hr' Hch' _.
      destruct (dispatch fr s) as [[] s'| |]; simpl in *.
      * apply IH; congruence.
      * rewrite Hch', Hch. simpl. lia.
      * rewrite Hch', Hch. simpl. lia.
Qed.

(** Frames other than Piece, once the signal has been given: each is
    handled and returns; none sets the remote-choking flag again. *)
Lemma dispatch_signalled_returns (fr : frame) (s : State) :
  f_kind fr <> inPiece -> readyEnd (st_pc s) = true ->
  exists s2, dispatch fr s = Done tt s2 /\
    readyEnd (st_pc s2) = true /\
    (peerChoking (st_pc s) = false -> peerChoking (st_pc s2) = false).
Proof.
  intros Hk Hr. unfold dispatch.
  destruct (f_kind fr) eqn:Ek; try done;
    try (eexists; split; [reflexivity|]; by split).
  - unfold mbind, M_bind, modifyPc, modify.
    rewrite handleUnchoke_signalled by done.
    eexists; split; [reflexivity|]; by split.
  - unfold handleBitfield, mbind, M_bind, modifyPc, modify, gets. simpl.
    destruct (0 <? _)%nat;
      (eexists; split; [reflexivity|]; by split).
Qed.

Lemma recvLoop_signalled_returns (frames : list frame) (s : State) :
  Forall (fun f => f_kind f <> inPiece) frames ->
  readyEnd (st_pc s) = true -> peerChoking (st_pc s) = false ->
  exists s3, recvLoop frames s = Done tt s3 /\
    readyEnd (st_pc s3) = true /\ peerChoking (st_pc s3) = false.
Proof.
  intros Hall. revert s.
  induction Hall as [|fr rest Hk _ IH]; intros s Hr Hp; simpl.
  - by exists s.
  - destruct (dispatch_signalled_returns fr s Hk Hr) as (s2 & Hd & Hr2 & Hp2).
    unfold mbind, M_bind. rewrite Hd. apply IH; auto.
Qed.

(** C5: from the state ready sets up (readyEnd false, a fresh readyCh):
    every Unchoke clears the remote-choking flag, and every Unchoke after
    the first does nothing else and returns; over any sequence of received
    frames at most one readiness signal is handed over. While ready still
    waits, the first Unchoke hands it over, its value is the
    local-interested flag at that moment, the channel is closed, and no
    later frame, Unchoke or other, adds a signal; the frames after it that
    are not Pieces (further Unchokes among them) are all handled, with the
    remote-choking flag clear at the end. When ready has given up, the
    first Unchoke parks the receive goroutine at its send: no signal is
    ever handed over. *)
Theorem unchoke_signals_ready_once (frames pre post : list frame) (fr : frame)
    (s s1 : State) :
  readyEnd (st_pc s) = false ->
  st_readyCh s = makeChan ->
  Forall (fun f => f_kind f <> inUnchoke) pre ->
  f_kind fr = inUnchoke ->
  recvLoop pre s = Done tt s1 ->
  (forall s0, peerChoking (st_pc (outState (handleUnchoke s0))) = false) /\
  (forall s0, readyEnd (st_pc s0) = true ->
     handleUnchoke s0 = Done tt (set_pc (set_peerChoking false (st_pc s0)) s0)) /\
  (length (sent (st_readyCh (outState (recvLoop frames s)))) <= 1)%nat /\
  sent (st_readyCh s1) = [] /\
  ((0 < onReady (st_receivers s))%nat ->
     st_readyCh (outState (recvLoop (pre ++ fr :: post) s))
       = {| sent := [amInterested (st_pc s1)]; cstate := chClosed |} /\
     (Forall (fun f => f_kind f <> inPiece) post ->
      exists s3, recvLoop (pre ++ fr :: post) s = Done tt s3 /\
        readyEnd (st_pc s3) = true /\ peerChoking (st_pc s3) = false)) /\
  (onReady (st_receivers s) = 0%nat ->
     exists s2, recvLoop (pre ++ fr :: post) s = Blocked s2 /\
       st_readyCh s2 = makeChan).
Proof.
  intros Hr Hch Hpre Hk Hrun.
  pose proof (rview_recvLoop_other pre Hpre s) as Hv.
  rewrite Hrun in Hv. injection Hv as Hr1 Hch1 Hrc1.
  split; [|split; [|split; [|split; [|split]]]].
  - intros [pc0 [snt st] [[|n] d1 d2] fs0 calls0 sha0];
      unfold handleUnchoke, mbind, M_bind, modifyPc, modify, gets;
      simpl; (destruct (readyEnd pc0); [reflexivity|]);
      unfold sendReady, closeReady, chanSend, chanClose; simpl;
      destruct (amInterested pc0), st; reflexivity.
  - apply handleUnchoke_signalled.
  - by apply recvLoop_signal_bound.
  - by rewrite Hch1, Hch.
  - intros Hrc.
    destruct (dispatch_first_unchoke fr s1 Hk) as (s2 & Hd & Hr2 & Hch2 & Hp2);
      [congruence | congruence | lia |].
    split.
    + rewrite recvLoop_app, Hrun. simpl. unfold mbind, M_bind. rewrite Hd.
      pose proof (rview_recvLoop_signalled post s2 Hr2) as Hrest.
      injection Hrest as _ -> _. done.
    + intros Hpost.
      destruct (recvLoop_signalled_returns post s2 Hpost Hr2 Hp2)
        as (s3 & Hrest & Hr3 & Hp3).
      exists s3. rewrite recvLoop_app, Hrun. simpl. unfold mbind, M_bind.
      by rewrite Hd.
  - intros Hrc.
    destruct (dispatch_first_unchoke_parked fr s1 Hk) as (s2 & Hd & Hch2);
      [congruence | congruence | congruence |].
    exists s2. rewrite recvLoop_app, Hrun. simpl. unfold mbind, M_bind.
    by rewrite Hd.
Qed.

End Ready.

(** A bitfield, then three Unchokes. While ready waits: one signal, with
    value true, and all three Unchokes are handled. After ready has given
    up: the first Unchoke parks the loop with nothing handed over. *)
Lemma unchoke_signals_ready_once_witness :
  (exists s3, recvLoop (Ev := Example.env)
     [Example.bitfieldFrame; Example.unchokeFrame; Example.unchokeFrame;
      Example.unchokeFrame] Example.freshState = Done tt s3 /\
     st_readyCh s3 = {| sent := [true]; cstate := chClosed |} /\
     peerChoking (st_pc s3) = false) /\
  (exists s2, recvLoop (Ev := Example.env)
     [Example.bitfieldFrame; Example.unchokeFrame; Example.unchokeFrame;
      Example.unchokeFrame]
     (set_receivers Example.gone Example.freshState) = Blocked s2 /\
     st_readyCh s2 = makeChan).
Proof.
  split.
  - edestruct (unchoke_signals_ready_once (Ev := Example.env)
                 [] [Example.bitfieldFrame]
                 [Example.unchokeFrame; Example.unchokeFrame]
                 Example.unchokeFrame Example.freshState)
      as (_ & _ & _ & _ & Hyes & _).
    + reflexivity.
    + reflexivity.
    + repeat constructor. discriminate.
    + reflexivity.
    + vm_compute. reflexivity.
    + destruct Hyes as [Hv (s3 & Hrun & _ & Hp)].
      * vm_compute. lia.
      * repeat constructor; discriminate.
      * exists s3. split; [exact Hrun|]. split; [|exact Hp].
        rewrite Hrun in Hv. simpl in Hv.
        etransitivity; [exact Hv|]. vm_compute. reflexivity.
  - edestruct (unchoke_signals_ready_once (Ev := Example.env)
                 [] [Example.bitfieldFrame]
                 [Example.unchokeFrame; Example.unchokeFrame]
                 Example.unchokeFrame
                 (set_receivers Example.gone Example.freshState))
      as (_ & _ & _ & _ & _ & Hno).
    + reflexivity.
    + reflexivity.
    + repeat constructor. discriminate.
    + reflexivity.
    + vm_compute. reflexivity.
    + apply Hno. reflexivity.
Defined.

(** ** Keepalive *)

Section Keepalive.
Context {T : Types} {Ev : Env}.


End Keepalive.


(** ** Bitfield *)

Section BitfieldInterest.
Context {T : Types} {Ev : Env}.

(** C7: the pieces handleBitfield looks at are those the remote has and the
    tracker has not finished. When there is one, Interested is sent and
    local-interested set, then Unchoke is sent and local-choking cleared,
    and the connection stays open; when there is none the connection is
    closed, nothing is sent and the four flags are as before. *)
Theorem handleBitfield_interested_or_closed (buf : list Byte.byte) (s : State) :
  let ps := pieceStates (torrent (st_pc s)) in
  let have := getHavePieces (st_pc s) (BitfieldDecode buf) in
  (forall i, i ∈ have <->
     i ∈ BitfieldDecode buf /\
     ~ exists j, 0 <= j < ps_size ps /\ ps_isFinish ps j = true /\
                 i = to_uint32 j) /\
  exists s', handleBitfield buf s = Done tt s' /\
    bitfield (st_pc s') = Some (BitfieldDecode buf) /\
    match have with
    | _ :: _ =>
        written (conn (st_pc s'))
          = written (conn (st_pc s)) ++ [pktInterested; pktUnchoke] /\
        closeCalls (conn (st_pc s')) = closeCalls (conn (st_pc s)) /\
        flags (st_pc s')
          = (false, true, peerChoking (st_pc s), peerInterested (st_pc s))
    | [] =>
        written (conn (st_pc s')) = written (conn (st_pc s)) /\
        closeCalls (conn (st_pc s')) = S (closeCalls (conn (st_pc s))) /\
        flags (st_pc s') = flags (st_pc s)
    end.
Proof.
  intros ps have. split.
  - intros i. subst have. unfold getHavePieces, Provide. fold ps.
    rewrite list_elem_of_filter. split.
    + intros [Hnot Hin]. split; [done|]. intros (j & Hj & Hfin & ->).
      apply Hnot. apply list_elem_of_fmap. exists j. split; [done|].
      apply list_elem_of_filter. split; [done|]. apply elem_of_seqZ. lia.
    + intros [Hin Hnot]. split; [|done]. intros Hmem. apply Hnot.
      apply list_elem_of_fmap in Hmem as (j & -> & Hj).
      apply list_elem_of_filter in Hj as [Hfin Hj].
      apply elem_of_seqZ in Hj. exists j. repeat split; try done; lia.
  - destruct s as [pc ch fs calls sha].
    unfold handleBitfield, mbind, M_bind, modifyPc, modify, gets. simpl.
    assert (Hhave : getHavePieces (set_bitfield (Some (BitfieldDecode buf)) pc)
                      (BitfieldDecode buf) = have) by done.
    rewrite Hhave. destruct have as [|x have']; simpl;
      eexists; (split; [reflexivity|]); simpl;
      repeat split; try reflexivity.
    by rewrite <- app_assoc.
Qed.

End BitfieldInterest.

(** ** Handshake *)

Section Handshake.
Context {T : Types} {Ev : Env}.

Lemma handshake_flags (pc : peerConn) :
  match (handshake pc).2.2 with
  | None => flags (handshake pc).1 = (true, false, true, false)
  | Some _ => flags (handshake pc).1 = flags pc /\ (handshake pc).2.1 = None
  end.
Proof.
  unfold handshake, handshakeExchange, connWrite.
  destruct (connWriteErr _ _); [done|].
  destruct (connReadFull _ _) as [read [e|]]; [done|].
  destruct (HandshakeDecode read) as [h|e]; [|done].
  by destruct (negb _).
Qed.

(** C8: whatever else the response holds, when its info hash is not the one
    sent, handshake fails with the wrong-swarm error and closes the
    connection; the four flags are set to choking / not interested in both
    directions when handshake succeeds, and only then. *)
Theorem handshake_rejects_other_info_hash (pc : peerConn)
    (read : list Byte.byte) (h : peer.Handshake) :
  let mi := MetaInfo (torrent pc) in
  let req := pktHandshake (replicate 8 Byte.x00) (metainfo.GetInfoHash mi)
               (PeerID (torrent pc)) in
  connWriteErr (conn pc) req = None ->
  connReadFull (conn (connWrite req pc).1) 68 = (read, None) ->
  HandshakeDecode read = inl h ->
  peer.InfoHash h <> metainfo.GetInfoHash mi ->
  (handshake pc).2 = (None, Some errInfoHashNotServing) /\
  closeCalls (conn (handshake pc).1) = S (closeCalls (conn pc)) /\
  flags (handshake pc).1 = flags pc /\
  (forall pc0 : peerConn,
     match (handshake pc0).2.2 with
     | None => flags (handshake pc0).1 = (true, false, true, false)
     | Some _ => flags (handshake pc0).1 = flags pc0 /\
                 (handshake pc0).2.1 = None
     end).
Proof.
  intros mi req Hw Hr Hd Hne. subst mi req.
  unfold connWrite in Hr. simpl in Hr, Hw.
  assert (Hrun : handshake pc =
            (connClose (connWrite (pktHandshake (replicate 8 Byte.x00)
                          (metainfo.GetInfoHash (MetaInfo (torrent pc)))
                          (PeerID (torrent pc))) pc).1,
             (None, Some errInfoHashNotServing))).
  { unfold handshake, handshakeExchange, connWrite, peer.NewHandshake. simpl.
    rewrite Hw, Hr, Hd.
    destruct (bytes_eqb _ _) eqn:Heq; [|done].
    by apply bytes_eqb_eq in Heq. }
  rewrite Hrun. repeat split; try reflexivity. apply handshake_flags.
Qed.

End Handshake.

(** The response of the example network carries the all-zero info hash. *)
Lemma handshake_rejects_other_info_hash_witness :
  (handshake (Ev := Example.env) Example.otherSwarm).2
    = (None, Some errInfoHashNotServing) /\
  closeCalls (conn (handshake (Ev := Example.env) Example.otherSwarm).1) = 1%nat.
Proof.
  destruct (handshake_rejects_other_info_hash (Ev := Example.env)
              Example.otherSwarm (replicate 68 Byte.x00)
              {| peer.Reserved := replicate 8 Byte.x00;
                 peer.InfoHash := replicate 20 Byte.x00;
                 peer.PeerID := replicate 20 Byte.x00 |})
    as (Hres & Hclose & _).
  - reflexivity.
  - reflexivity.
  - reflexivity.
  - vm_compute. discriminate.
  - split; [exact Hres | exact Hclose].
Defined.

(** ** Block requests *)

Lemma blockSize_eq : blockSize = 16384.
Proof. reflexivity. Qed.

Lemma to_uint32_id (z : Z) : 0 <= z < 2 ^ 32 -> to_uint32 z = z.
Proof. intros Hz. unfold to_uint32. by apply Z.mod_small. Qed.

Section Requests.
Context {T : Types} {Ev : Env}.
Variables (index pieceLength blockCount : Z) (sch : schedule).
Hypothesis index_range : 0 <= index < 2 ^ 32.
Hypothesis pieceLength_range : 0 <= pieceLength < 2 ^ 32.
Hypothesis blocks_fit : blockSize * (blockCount - 1) <= pieceLength.

Lemma buildRequest_expected (i : Z) :
  0 <= i < blockCount ->
  pktRequest (buildRequest index (mul64 blockSize i)
                (blockLengthOf pieceLength blockCount i))
  = requestFor index pieceLength blockCount i.
Proof.
  intros Hi. pose proof blockSize_eq as Hbs.
  assert (Hoff : mul64 blockSize i = blockSize * i).
  { apply wrap64_id. unfold in_int64. rewrite Hbs in *. lia. }
  unfold requestFor, buildRequest, blockLengthOf. rewrite Hoff.
  unfold sub64. rewrite (wrap64_id (blockCount - 1))
    by (unfold in_int64; rewrite Hbs in *; lia).
  rewrite !to_uint32_id by (rewrite Hbs in *; lia).
  destruct (i =? blockCount - 1) eqn:Hlast; [|done].
  apply Z.eqb_eq in Hlast. subst i.
  rewrite wrap64_id by (unfold in_int64; rewrite Hbs in *; lia).
  rewrite to_uint32_id by (rewrite Hbs in *; lia). done.
Qed.

Lemma requestLoop_S (n : nat) (i : Z) (pc : peerConn) :
  requestLoop (S n) i index pieceLength blockCount sch pc =
  if isBlockDone (trackerAt sch i) index (mul64 blockSize i) then
    requestLoop n (i + 1) index pieceLength blockCount sch pc
  else
    let '(pc1, err) :=
      match selectAt sch i with
      | selQueue =>
          (set_blockQueueCh
             {| tokens := tokens (blockQueueCh pc) + 1;
                qstate := qstate (blockQueueCh pc) |} pc, None)
      | selDownloaded r => recvDownloaded r pc
      | selDisconnect r => recvDisconnect r pc
      end in
    match err with
    | Some e => (connClose pc1, loopReturn (Some e))
    | None =>
        let '(pc2, werr) :=
          connWrite (pktRequest (buildRequest index (mul64 blockSize i)
                       (blockLengthOf pieceLength blockCount i))) pc1 in
        match werr with
        | Some e => (pc2, loopEnd (Some e))
        | None => requestLoop n (i + 1) index pieceLength blockCount sch pc2
        end
    end.
Proof. reflexivity. Qed.

Lemma requestLoop_written (n : nat) :
  forall (i : Z) (pc : peerConn),
    0 <= i -> i + Z.of_nat n = blockCount ->
    exists js,
      written (conn (requestLoop n i index pieceLength blockCount sch pc).1)
        = written (conn pc) ++ (requestFor index pieceLength blockCount <$> js) /\
      sublist js (seqZ i (Z.of_nat n)).
Proof.
  induction n as [|n IH]; intros i pc Hi Hn.
  - exists []. simpl. rewrite app_nil_r. split; [done | constructor].
  - rewrite requestLoop_S.
    rewrite seqZ_cons by lia.
    replace (Z.pred (Z.of_nat (S n))) with (Z.of_nat n) by lia.
    replace (Z.succ i) with (i + 1) by lia.
    destruct (isBlockDone _ _ _).
    { destruct (IH (i + 1) pc) as (js & Hw & Hsub); [lia | lia |].
      exists js. split; [done | by constructor]. }
    rewrite buildRequest_expected by lia.
    set (req := requestFor index pieceLength blockCount i).
    assert (Hstep : forall pc1 : peerConn,
      written (conn pc1) = written (conn pc) ->
      exists js,
        written (conn
          (let '(pc2, werr) := connWrite req pc1 in
           match werr with
           | Some e => (pc2, loopEnd (Some e))
           | None => requestLoop n (i + 1) index pieceLength blockCount sch pc2
           end).1)
        = written (conn pc) ++ (requestFor index pieceLength blockCount <$> js) /\
        sublist js (i :: seqZ (i + 1) (Z.of_nat n))).
    { intros pc1 Hpc1. unfold connWrite.
      destruct (connWriteErr (conn pc1) req).
      - exists [i]. simpl. rewrite Hpc1. split; [done|].
        constructor. apply sublist_nil_l.
      - edestruct (IH (i + 1)) as (js & Hw & Hsub); [lia | lia |].
        exists (i :: js). rewrite Hw. simpl. rewrite Hpc1, <- app_assoc.
        split; [done | by constructor]. }
    assert (Hstop : forall pc1 : peerConn,
      written (conn pc1) = written (conn pc) ->
      exists js,
        written (conn (connClose pc1)) =
          written (conn pc) ++ (requestFor index pieceLength blockCount <$> js) /\
        sublist js (i :: seqZ (i + 1) (Z.of_nat n))).
    { intros pc1 Hpc1. exists []. simpl. rewrite app_nil_r.
      split; [done | apply sublist_nil_l]. }
    destruct (selectAt sch i) as [|[[e|]|]|[[e|]|]];
      unfold recvDownloaded, recvDisconnect, errOf; cbv beta iota zeta;
      first [apply Hstep; reflexivity | apply Hstop; reflexivity].
Qed.

End Requests.

(** C9: blockSize is 16384, and downloadPiece returns having written only
    Requests, for block indices in increasing order (blocks already done are
    skipped, and the loop may end early): the Request for block j carries
    offset blockSize * j and length blockSize, except that the last block,
    j = blockCount - 1, carries length
    pieceLength - blockSize * (blockCount - 1). *)
Theorem downloadPiece_request_lengths {T : Types} {Ev : Env}
    (index : Z) (sch : schedule) (pc : peerConn) (blockCount : Z) :
  let pieceLength := metainfo.GetPieceLength (MetaInfo (torrent pc)) index in
  ps_blockCount (pieceStates (torrent pc)) index = Some blockCount ->
  0 <= index < 2 ^ 32 ->
  0 <= pieceLength < 2 ^ 32 ->
  blockSize * (blockCount - 1) <= pieceLength ->
  blockSize = 16384 /\
  exists pc' err js,
    downloadPiece index sch pc = Some (pc', err) /\
    written (conn pc')
      = written (conn pc) ++ (requestFor index pieceLength blockCount <$> js) /\
    sublist js (seqZ 0 blockCount).
Proof.
  intros pieceLength Hbc Hindex Hlen Hfit. split; [reflexivity|].
  unfold downloadPiece, to_int64. fold pieceLength.
  rewrite (wrap64_id pieceLength) by (unfold in_int64; lia).
  set (pc0 := set_blockQueueCh _ _).
  change (pieceStates (torrent pc0)) with (pieceStates (torrent pc)).
  rewrite Hbc.
  assert (Hloop : exists js,
    written (conn (requestLoop (Z.to_nat blockCount) 0 index pieceLength
                     blockCount sch pc0).1)
      = written (conn pc) ++ (requestFor index pieceLength blockCount <$> js) /\
    sublist js (seqZ 0 blockCount)).
  { destruct (Z.le_gt_cases 0 blockCount) as [Hpos|Hneg].
    - destruct (requestLoop_written index pieceLength blockCount sch
                  Hindex Hlen Hfit (Z.to_nat blockCount) 0 pc0)
        as (js & Hw & Hsub); [lia | lia |].
      exists js. split; [exact Hw|]. by rewrite Z2Nat.id in Hsub.
    - exists []. replace (Z.to_nat blockCount) with 0%nat by lia.
      simpl. rewrite app_nil_r. split; [done | apply sublist_nil_l]. }
  destruct Hloop as (js & Hw & Hsub).
  destruct (requestLoop _ _ _ _ _ _ _) as [pc1 [e|e]]; simpl in Hw.
  - unfold finalReceive, recvDownloaded, recvDisconnect.
    destruct (finalChan sch), (finalGot sch) as [[e'|]|]; eexists _, _, js;
      (split; [reflexivity|]); (split; [exact Hw | exact Hsub]).
  - eexists _, _, js. split; [reflexivity|]. split; [exact Hw | exact Hsub].
Qed.

(** A piece of 40000 bytes in three blocks, the second already done: two
    Requests, of 16384 bytes at offset 0 and of the remaining 7232 bytes at
    offset 32768. *)
Lemma downloadPiece_request_lengths_witness :
  exists pc' err,
    downloadPiece (Ev := Example.env) 0 Example.idleSchedule Example.threeBlocks
      = Some (pc', err) /\
    written (conn pc')
      = [ pktRequest {| message.ReqIndex := 0; message.ReqBegin := 0;
                        message.ReqLength := 16384 |};
          pktRequest {| message.ReqIndex := 0; message.ReqBegin := 32768;
                        message.ReqLength := 7232 |} ].
Proof.
  destruct (downloadPiece_request_lengths (Ev := Example.env) 0
              Example.idleSchedule Example.threeBlocks 3)
    as (_ & pc' & err & js & Hrun & _ & _).
  - reflexivity.
  - lia.
  - simpl. lia.
  - simpl. rewrite blockSize_eq. lia.
  - exists pc', err. split; [exact Hrun|].
    vm_compute in Hrun. injection Hrun as <- _. reflexivity.
Defined.

(** A bitfield claiming piece 0, which the tracker has not finished:
    Interested and Unchoke are sent. *)
Lemma handleBitfield_interested_or_closed_witness :
  exists s', handleBitfield (Ev := Example.env)
               (f_buf Example.bitfieldFrame) Example.freshState = Done tt s' /\
    written (conn (st_pc s')) = [pktInterested; pktUnchoke].
Proof.
  destruct (handleBitfield_interested_or_closed (Ev := Example.env)
              (f_buf Example.bitfieldFrame) Example.freshState)
    as (_ & s' & Hrun & _ & Hcase).
  exists s'. split; [exact Hrun|].
  vm_compute in Hcase. by destruct Hcase as (Hw & _).
Defined.

(** * Further properties of the code *)

(** ** Where the FileBlocks land *)

(** The walk over the files in full: how far the block gets, and where each
    FileBlock lies in its file. [bfb - seek] is the torrent offset of the
    block's first byte. *)
Lemma walkFiles_placed (rest : list metainfo.FileDetail) :
  forall (f : metainfo.FileDetail) (len bfb seek : Z) (acc : list fileBlock),
    0 <= metainfo.Begin f -> metainfo.Begin f <= bfb <= metainfo.End f ->
    contiguousFrom (metainfo.End f) rest ->
    torrentEnd (metainfo.End f) rest < 2 ^ 63 ->
    0 <= seek <= len -> len < 2 ^ 63 ->
    exists new, walkFiles (f :: rest) len bfb seek acc = acc ++ new /\
      new <> [] /\
      chained seek new
        (Z.min len (seek + (torrentEnd (metainfo.End f) rest - bfb))) /\
      forall (k : nat) (fb : fileBlock), new !! k = Some fb ->
        exists g, (f :: rest) !! k = Some g /\
          filepath fb = gofilepath.Join (metainfo.Path g) /\
          fileSeek fb = (bfb - seek) + blockBegin fb - metainfo.Begin g /\
          metainfo.Begin g <= (bfb - seek) + blockBegin fb /\
          (bfb - seek) + blockEnd fb <= metainfo.End g.
Proof.
  induction rest as [|g rest IH]; intros f len bfb seek acc H0 Hin Hc Hend Hseek Hlen;
    rewrite walkFiles_cons; cbv zeta.
  - simpl in Hend. simpl torrentEnd. unfold sub64.
    rewrite !(wrap64_id (_ - _)) by (unfold in_int64; lia).
    unfold add64. destruct (_ >=? _) eqn:E.
    + rewrite wrap64_id by (unfold in_int64; lia).
      eexists. split; [done|]. split; [done|]. split.
      * simpl. repeat split; lia.
      * intros [|k] fb; [|done]. intros [= <-]. exists f. simpl.
        repeat split; try done; lia.
    + rewrite wrap64_id by (unfold in_int64; lia).
      eexists. split; [done|]. split; [done|]. split.
      * simpl. repeat split; lia.
      * intros [|k] fb; [|done]. intros [= <-]. exists f. simpl.
        repeat split; try done; lia.
  - simpl in Hc, Hend. destruct Hc as (Hgb & Hgle & Hc).
    pose proof (torrentEnd_ge _ _ Hc) as Hge. simpl torrentEnd.
    unfold sub64.
    rewrite !(wrap64_id (_ - _)) by (unfold in_int64; lia).
    unfold add64. destruct (_ >=? _) eqn:E.
    + rewrite wrap64_id by (unfold in_int64; lia).
      eexists. split; [done|]. split; [done|]. split.
      * simpl. repeat split; lia.
      * intros [|k] fb; [|done]. intros [= <-]. exists f. simpl.
        repeat split; try done; lia.
    + rewrite !(wrap64_id (_ + _)) by (unfold in_int64; lia).
      edestruct (IH g len (metainfo.End f) (seek + (metainfo.End f - bfb)))
        as (new & Hw & Hne & Hch & Hpl); try eassumption; try lia.
      rewrite Hw. rewrite <- app_assoc. eexists. split; [done|].
      split; [done|]. split.
      * simpl. repeat split; try lia.
        replace (Z.min len (seek + (torrentEnd (metainfo.End g) rest - bfb)))
          with (Z.min len (seek + (metainfo.End f - bfb) +
                  (torrentEnd (metainfo.End g) rest - metainfo.End f)))
          by (f_equal; lia).
        exact Hch.
      * intros [|k] fb.
        -- intros [= <-]. exists f. simpl. repeat split; try done; lia.
        -- simpl. intros Hk. destruct (Hpl k fb Hk) as (h & Hh & Hp & Hs & Hb & He).
           exists h. split; [done|]. split; [done|]. lia.
Qed.

(** What getWriteFile finds under a contiguous layout, ready for the walk. *)
Lemma fileBlocksOf_walk (i : metainfo.Info) (fds : list metainfo.FileDetail)
    (piece : message.Piece) (start : Z) :
  metainfo.Files i <> [] ->
  contiguousFrom start fds ->
  Exists (inRange (blockBeginOf i piece)) fds ->
  Z.of_nat (length (message.Block piece)) < 2 ^ 63 ->
  exists f rest,
    drop (Z.to_nat (getWriteFile (blockBeginOf i piece) fds)) fds = f :: rest /\
    inRange (blockBeginOf i piece) f /\ start <= metainfo.Begin f /\
    contiguousFrom (metainfo.End f) rest /\
    torrentEnd (metainfo.End f) rest = torrentEnd start fds /\
    fileBlocksOf i fds piece =
      Some (walkFiles (f :: rest) (Z.of_nat (length (message.Block piece)))
              (blockBeginOf i piece) 0 []).
Proof.
  intros Hne Hc Hex Hlen.
  destruct (getWriteFile_found _ _ Hex) as (f & Hidx & Hf & Hin).
  destruct (contiguous_drop _ _ _ _ Hc Hf) as (rest & Hdrop & Hs & Hle & Hc' & He).
  exists f, rest. repeat split; try done; try apply Hin.
  rewrite fileBlocksOf_multi by done. unfold slice_from, to_int64.
  rewrite wrap64_id by (unfold in_int64; lia).
  apply lookup_lt_Some in Hf as Hlt.
  destruct (_ && _) eqn:E; [|apply andb_false_iff in E; lia].
  simpl. by rewrite Hdrop.
Qed.

(** X1: in the multi-file layout every FileBlock lies inside its file: the
    k-th FileBlock goes to the k-th file counted from the one getWriteFile
    found (no file is skipped), under that file's joined path, at the file
    offset of its first byte, and its bytes end no later than the file
    does. This holds whether or not the block fits the torrent. *)
Theorem fileBlocks_lie_in_their_files (i : metainfo.Info)
    (fds : list metainfo.FileDetail) (piece : message.Piece) (start : Z) :
  metainfo.Files i <> [] ->
  0 <= start ->
  contiguousFrom start fds ->
  torrentEnd start fds < 2 ^ 63 ->
  Exists (inRange (blockBeginOf i piece)) fds ->
  Z.of_nat (length (message.Block piece)) < 2 ^ 63 ->
  exists fbs, fileBlocksOf i fds piece = Some fbs /\
    forall (k : nat) (fb : fileBlock), fbs !! k = Some fb ->
      exists g,
        fds !! (Z.to_nat (getWriteFile (blockBeginOf i piece) fds) + k)%nat
          = Some g /\
        filepath fb = gofilepath.Join (metainfo.Path g) /\
        fileSeek fb = blockBeginOf i piece + blockBegin fb - metainfo.Begin g /\
        metainfo.Begin g <= blockBeginOf i piece + blockBegin fb /\
        blockBeginOf i piece + blockEnd fb <= metainfo.End g.
Proof.
  intros Hne Hstart Hc Hend Hex Hlen.
  destruct (fileBlocksOf_walk i fds piece start Hne Hc Hex Hlen)
    as (f & rest & Hdrop & Hin & Hs & Hc' & He & ->).
  destruct (walkFiles_placed rest f (Z.of_nat (length (message.Block piece)))
              (blockBeginOf i piece) 0 [])
    as (new & Hw & _ & _ & Hpl); unfold inRange in *; try lia; try done.
  rewrite Hw. exists new. split; [done|].
  intros k fb Hk. destruct (Hpl k fb Hk) as (g & Hg & Hp & Hsk & Hb & Hen).
  exists g. rewrite <- lookup_drop, Hdrop. split; [done|].
  split; [done|]. lia.
Qed.

Lemma fileBlocks_lie_in_their_files_witness :
  exists fbs, fileBlocksOf Sample.info3 Example.threeFiles Sample.piece5to55
              = Some fbs /\
    forall (k : nat) (fb : fileBlock), fbs !! k = Some fb ->
      exists g, Example.threeFiles !! (0 + k)%nat = Some g /\
        filepath fb = gofilepath.Join (metainfo.Path g) /\
        fileSeek fb = 5 + blockBegin fb - metainfo.Begin g /\
        metainfo.Begin g <= 5 + blockBegin fb /\
        5 + blockEnd fb <= metainfo.End g.
Proof.
  assert (Hb : blockBeginOf Sample.info3 Sample.piece5to55 = 5)
    by (vm_compute; reflexivity).
  apply (fileBlocks_lie_in_their_files Sample.info3 Example.threeFiles
           Sample.piece5to55 0).
  - discriminate.
  - lia.
  - simpl. lia.
  - simpl. lia.
  - apply Exists_cons_hd. rewrite Hb. unfold inRange. simpl. lia.
  - vm_compute. reflexivity.
Defined.

(** X2: a block that starts inside the files but runs past the end of the
    last one raises no error in the mapping: the FileBlocks tile only the
    part of the block up to the end of the torrent, and the rest of the
    block is in no FileBlock. *)
Theorem fileBlocks_cut_at_torrent_end (i : metainfo.Info)
    (fds : list metainfo.FileDetail) (piece : message.Piece) (start : Z) :
  metainfo.Files i <> [] ->
  0 <= start ->
  contiguousFrom start fds ->
  torrentEnd start fds < 2 ^ 63 ->
  Exists (inRange (blockBeginOf i piece)) fds ->
  Z.of_nat (length (message.Block piece)) < 2 ^ 63 ->
  torrentEnd start fds
    < blockBeginOf i piece + Z.of_nat (length (message.Block piece)) ->
  exists fbs, fileBlocksOf i fds piece = Some fbs /\ fbs <> [] /\
    chained 0 fbs (torrentEnd start fds - blockBeginOf i piece) /\
    totalBytes fbs = torrentEnd start fds - blockBeginOf i piece.
Proof.
  intros Hne Hstart Hc Hend Hex Hlen Hpast.
  destruct (fileBlocksOf_walk i fds piece start Hne Hc Hex Hlen)
    as (f & rest & Hdrop & Hin & Hs & Hc' & He & ->).
  destruct (walkFiles_placed rest f (Z.of_nat (length (message.Block piece)))
              (blockBeginOf i piece) 0 [])
    as (new & Hw & Hnew & Hch & _); unfold inRange in *; try lia; try done.
  rewrite Hw. exists new. rewrite He in Hch.
  rewrite Z.min_r in Hch by lia. rewrite Z.add_0_l in Hch.
  repeat split; try done.
  rewrite (chained_total _ _ _ Hch). lia.
Qed.

(** Files [0,10), [10,30), [30,60); 50 bytes at offset 25 reach 75. *)
Lemma fileBlocks_cut_at_torrent_end_witness :
  exists fbs,
    fileBlocksOf Sample.info3 Example.threeFiles
      {| message.Index := 0; message.Begin := 25;
         message.Block := Sample.numbered |} = Some fbs /\
    fbs <> [] /\ chained 0 fbs 35 /\ totalBytes fbs = 35.
Proof.
  assert (Hb : blockBeginOf Sample.info3
                 {| message.Index := 0; message.Begin := 25;
                    message.Block := Sample.numbered |} = 25)
    by (vm_compute; reflexivity).
  apply (fileBlocks_cut_at_torrent_end Sample.info3 Example.threeFiles
           {| message.Index := 0; message.Begin := 25;
              message.Block := Sample.numbered |} 0).
  - discriminate.
  - lia.
  - simpl. lia.
  - simpl. lia.
  - apply Exists_cons_tl, Exists_cons_hd. rewrite Hb. unfold inRange. simpl. lia.
  - vm_compute. reflexivity.
  - vm_compute. reflexivity.
Defined.

(** Later files of a contiguous layout begin where earlier ones have ended. *)
Lemma contiguous_ordered (start : Z) (fds : list metainfo.FileDetail)
    (i j : nat) (f g : metainfo.FileDetail) :
  contiguousFrom start fds -> (i < j)%nat ->
  fds !! i = Some f -> fds !! j = Some g ->
  metainfo.End f <= metainfo.Begin g.
Proof.
  intros Hc Hij Hf Hg.
  destruct (contiguous_drop _ _ _ _ Hc Hf) as (rest & Hdrop & _ & _ & Hc' & _).
  assert (Hg' : rest !! (j - i - 1)%nat = Some g).
  { assert (Hd : drop i fds !! (j - i)%nat = Some g).
    { rewrite lookup_drop. by replace (i + (j - i))%nat with j by lia. }
    rewrite Hdrop in Hd.
    by replace (j - i)%nat with (S (j - i - 1)) in Hd by lia. }
  destruct (contiguous_drop _ _ _ _ Hc' Hg') as (_ & _ & Hle & _). exact Hle.
Qed.

(** X3: under a contiguous layout the file ranges are disjoint, so
    getWriteFile returns the index of the one file that contains the
    offset: whichever file contains it, that is the index returned. *)
Theorem getWriteFile_the_containing_file (start off : Z)
    (fds : list metainfo.FileDetail) (i : nat) (f : metainfo.FileDetail) :
  contiguousFrom start fds ->
  fds !! i = Some f ->
  inRange off f ->
  getWriteFile off fds = Z.of_nat i.
Proof.
  intros Hc Hf Hin.
  assert (Hex : Exists (inRange off) fds).
  { apply Exists_exists. exists f. split; [|done]. by eapply list_elem_of_lookup_2. }
  destruct (getWriteFile_found _ _ Hex) as (g & Hidx & Hg & Hing).
  set (r := getWriteFile off fds) in *.
  destruct (Nat.lt_trichotomy (Z.to_nat r) i) as [Hlt | [Heq | Hgt]].
  - pose proof (contiguous_ordered _ _ _ _ _ _ Hc Hlt Hg Hf).
    unfold inRange in *. lia.
  - lia.
  - pose proof (contiguous_ordered _ _ _ _ _ _ Hc Hgt Hf Hg).
    unfold inRange in *. lia.
Qed.

Lemma getWriteFile_the_containing_file_witness :
  getWriteFile 29 Example.threeFiles = 1.
Proof.
  apply (getWriteFile_the_containing_file 0 29 Example.threeFiles 1
           (Example.fd ["b"] 10 30)).
  - simpl. lia.
  - reflexivity.
  - unfold inRange. simpl. lia.
Defined.

(** ** Writing a block *)

Section WriteBlock.
Context {T : Types} {Ev : Env}.

Lemma writeFileBlock_success (root : string) (piece : message.Piece)
    (f : fileBlock) (s s1 : State) :
  writeFileBlock root piece f s = Done None s1 ->
  st_calls s1 = st_calls s ++ callsFor root (message.Block piece) f.
Proof.
  unfold writeFileBlock, mbind, M_bind, openFileM.
  destruct (osOpenFile _ _) as [fs' [e|]]; [done|].
  unfold liftOpt, slice. destruct (_ && _); [|done]. simpl.
  unfold writeAtM, set_fs. simpl.
  destruct (osWriteAt _ _ _ _) as [fs'' [e|]]; [done|].
  intros [= <-]. simpl. by rewrite <- app_assoc.
Qed.

Lemma writeFileBlocks_success (root : string) (piece : message.Piece)
    (fbs : list fileBlock) :
  forall s s1 : State,
    writeFileBlocks root piece fbs s = Done None s1 ->
    st_calls s1
      = st_calls s ++ mjoin (callsFor root (message.Block piece) <$> fbs).
Proof.
  induction fbs as [|f rest IH]; intros s s1; csimpl.
  - intros [= <-]. by rewrite app_nil_r.
  - unfold mbind at 1, M_bind at 1.
    destruct (writeFileBlock root piece f s) as [[e|] s'| |] eqn:Hf; try done.
    intros Hrest. rewrite (IH _ _ Hrest), (writeFileBlock_success _ _ _ _ _ Hf).
    by rewrite <- app_assoc.
Qed.

Lemma chained_bytes (l : list Byte.byte) (fbs : list fileBlock) :
  forall from : Z,
    0 <= from -> chained from fbs (Z.of_nat (length l)) ->
    mjoin (bytesFor l <$> fbs) = drop (Z.to_nat from) l.
Proof.
  induction fbs as [|fb rest IH]; intros from Hfrom Hch; simpl in Hch; csimpl.
  - subst from. rewrite Nat2Z.id. by rewrite drop_all.
  - destruct Hch as (Hb & Hle & Hrest).
    rewrite (IH (blockEnd fb) ltac:(lia) Hrest).
    unfold bytesFor. rewrite Hb.
    etransitivity; [|apply (take_drop (Z.to_nat (blockEnd fb - from)))].
    f_equal. rewrite drop_drop. f_equal. lia.
Qed.

(** X4: when every FileBlock of a block is written without error, the
    operating system was asked, for each FileBlock in order, to open
    (create) its file and then to write its bytes at its file offset, and
    nothing else; when the FileBlocks tile the block, the bytes written,
    put end to end, are the block: every byte once, in order. *)
Theorem writeFileBlocks_writes_the_block (root : string)
    (piece : message.Piece) (fbs : list fileBlock) (s s1 : State) :
  writeFileBlocks root piece fbs s = Done None s1 ->
  chained 0 fbs (Z.of_nat (length (message.Block piece))) ->
  st_calls s1
    = st_calls s ++ mjoin (callsFor root (message.Block piece) <$> fbs) /\
  mjoin (bytesFor (message.Block piece) <$> fbs) = message.Block piece.
Proof.
  intros Hw Hch. split; [by apply writeFileBlocks_success|].
  by rewrite (chained_bytes _ _ 0 ltac:(lia) Hch).
Qed.

(** X5: a block whose FileBlocks were all written, received while a request
    is in flight and leaving its piece incomplete: handlePiece marks the
    block done in the tracker, releases exactly one queue slot, and does
    nothing else: no signal on the completion channel, the connection left
    as it was, no further call to the operating system. *)
Theorem handlePiece_stores_block (buf : list Byte.byte)
    (fbs : list fileBlock) (s s1 : State) :
  let piece := PieceDecode buf in
  let pc := st_pc s in
  let mi := MetaInfo (torrent pc) in
  let marked := setBlockDone (pieceStates (torrent pc))
                  (message.Index piece) (message.Begin piece) in
  fileBlocksOf (metainfo.info mi) (metainfo.GetFileDetails mi) piece
    = Some fbs ->
  writeFileBlocks (Path (torrent pc)) piece fbs s = Done None s1 ->
  0 < tokens (blockQueueCh pc) ->
  isPieceDone marked (message.Index piece) = false ->
  exists s2, handlePiece buf s = Done tt s2 /\
    pieceStates (torrent (st_pc s2)) = marked /\
    tokens (blockQueueCh (st_pc s2)) = tokens (blockQueueCh pc) - 1 /\
    downloadedCh (st_pc s2) = downloadedCh pc /\
    conn (st_pc s2) = conn pc /\
    st_fs s2 = st_fs s1 /\ st_calls s2 = st_calls s1.
Proof.
  intros piece pc mi marked Hfbs Hw Htok Hnot.
  assert (Hpc : st_pc s1 = pc).
  { pose proof (preserves_writeFileBlocks st_pc (fun _ _ _ => eq_refl)
                  (Path (torrent pc)) piece fbs s) as Hp.
    by rewrite Hw in Hp. }
  unfold handlePiece, mbind, M_bind, gets. fold piece pc mi.
  rewrite Hfbs. simpl. rewrite Hw.
  unfold modifyPc, modify, dequeue. simpl. rewrite Hpc.
  fold marked. destruct (0 <? tokens (blockQueueCh pc)) eqn:Hq; [|lia].
  simpl. fold marked. rewrite Hnot.
  eexists. split; [reflexivity|]. simpl. done.
Qed.

(** X6: the same block received when no request is in flight (the queue is
    empty and not closed): it is written and marked done all the same, and
    then the receive loop is parked on the queue: the frames after it wait
    until downloadPiece puts a token or returns. *)
Theorem handlePiece_waits_for_slot (buf : list Byte.byte)
    (fbs : list fileBlock) (s s1 : State) :
  let piece := PieceDecode buf in
  let pc := st_pc s in
  let mi := MetaInfo (torrent pc) in
  fileBlocksOf (metainfo.info mi) (metainfo.GetFileDetails mi) piece
    = Some fbs ->
  writeFileBlocks (Path (torrent pc)) piece fbs s = Done None s1 ->
  tokens (blockQueueCh pc) <= 0 ->
  qstate (blockQueueCh pc) <> chClosed ->
  exists s2, handlePiece buf s = Blocked s2 /\
    pieceStates (torrent (st_pc s2))
      = setBlockDone (pieceStates (torrent pc))
          (message.Index piece) (message.Begin piece) /\
    blockQueueCh (st_pc s2) = blockQueueCh pc /\
    downloadedCh (st_pc s2) = downloadedCh pc /\
    st_fs s2 = st_fs s1 /\ st_calls s2 = st_calls s1.
Proof.
  intros piece pc mi Hfbs Hw Htok Hopen.
  assert (Hpc : st_pc s1 = pc).
  { pose proof (preserves_writeFileBlocks st_pc (fun _ _ _ => eq_refl)
                  (Path (torrent pc)) piece fbs s) as Hp.
    by rewrite Hw in Hp. }
  unfold handlePiece, mbind, M_bind, gets. fold piece pc mi.
  rewrite Hfbs. simpl. rewrite Hw.
  unfold modifyPc, modify, dequeue. simpl. rewrite Hpc.
  destruct (0 <? tokens (blockQueueCh pc)) eqn:Hq; [lia|].
  destruct (qstate (blockQueueCh pc)) eqn:Hst; [| |done];
    eexists; (split; [reflexivity|]); simpl; done.
Qed.

End WriteBlock.

Lemma writeFileBlocks_writes_the_block_witness :
  exists s1,
    writeFileBlocks (Ev := Example.env) "dl" Sample.piece5to55
      Sample.blocks5to55 Sample.openState = Done None s1 /\
    st_calls s1 = mjoin (callsFor "dl" Sample.numbered <$> Sample.blocks5to55) /\
    mjoin (bytesFor Sample.numbered <$> Sample.blocks5to55) = Sample.numbered.
Proof.
  edestruct (writeFileBlocks_writes_the_block (Ev := Example.env) "dl"
               Sample.piece5to55 Sample.blocks5to55 Sample.openState)
    as (Hcalls & Hbytes).
  - vm_compute. reflexivity.
  - change (Z.of_nat (length (message.Block Sample.piece5to55))) with 50.
    simpl. lia.
  - eexists. split; [vm_compute; reflexivity|].
    split; [exact Hcalls | exact Hbytes].
Defined.

Lemma handlePiece_stores_block_witness :
  exists s2, handlePiece (Ev := Example.env) Sample.numberedFrame
               Sample.openState = Done tt s2 /\
    pieceStates (torrent (st_pc s2)) = [[true; false]] /\
    tokens (blockQueueCh (st_pc s2)) = 0 /\
    sent (downloadedCh (st_pc s2)) = [].
Proof.
  edestruct (handlePiece_stores_block (Ev := Example.env) Sample.numberedFrame
               Sample.blocks5to55 Sample.openState)
    as (s2 & Hrun & Hps & Htok & Hd & _).
  - vm_compute. reflexivity.
  - vm_compute. reflexivity.
  - vm_compute. reflexivity.
  - vm_compute. reflexivity.
  - exists s2. split; [exact Hrun|]. split; [exact Hps|].
    split; [exact Htok|]. by rewrite Hd.
Defined.

Lemma handlePiece_waits_for_slot_witness :
  exists s2, handlePiece (Ev := Example.env) Sample.numberedFrame
               Sample.idleQueueState = Blocked s2 /\
    pieceStates (torrent (st_pc s2)) = [[true; false]].
Proof.
  edestruct (handlePiece_waits_for_slot (Ev := Example.env) Sample.numberedFrame
               Sample.blocks5to55 Sample.idleQueueState)
    as (s2 & Hrun & Hps & _).
  - vm_compute. reflexivity.
  - vm_compute. reflexivity.
  - vm_compute. discriminate.
  - discriminate.
  - exists s2. split; [exact Hrun | exact Hps].
Defined.

(** ** Verifying a piece *)

(** Primitive steps against a concrete view: unfold, split cases, compute. *)
Ltac frame_prim :=
  let s := fresh "s" in
  intros s;
  unfold liftOpt, sendReady, closeReady, sendDownloaded, closeDownloaded,
    sendDisconnect, closeDisconnect, dequeue, openFileM, writeAtM, openM,
    seekM, copyNM, modifyPc, modify, gets, panic, chanSend, chanClose;
  repeat match goal with
         | |- context [match ?x with _ => _ end] => destruct x
         end;
  reflexivity.

Ltac frame_with tac :=
  repeat first
    [ match goal with
      | |- preserves _ (if _ then _ else _) => apply preserves_if
      | |- preserves _ (match ?x with _ => _ end) => destruct x
      | |- preserves _ (_ ≫= _) => apply preserves_bind; [|intros ?]
      end
    | solve [tac]
    | solve [frame_prim] ].

Lemma wrap64_range (z : Z) : in_int64 (wrap64 z).
Proof.
  unfold in_int64, wrap64.
  pose proof (Z.mod_pos_bound (z + 2 ^ 63) (2 ^ 64) ltac:(lia)). lia.
Qed.

Lemma index_at_slice_from {A} (l : list A) (i : Z) (x : A) :
  index_at l i = Some x -> slice_from l i = Some (drop (Z.to_nat i) l).
Proof.
  unfold index_at, slice_from. destruct (0 <=? i) eqn:Hi; [|done].
  intros Hx. apply lookup_lt_Some in Hx.
  destruct (i <=? _) eqn:Hle; [done | lia].
Qed.

Lemma writeCalls_read (calls : list oscall) (c : oscall) :
  isReadCall c = true -> writeCalls (calls ++ [c]) = writeCalls calls.
Proof.
  intros Hc. unfold writeCalls. rewrite filter_app, filter_cons_False, filter_nil.
  - by rewrite app_nil_r.
  - by rewrite Hc.
Qed.

Section Verify.
Context {T : Types} {Ev : Env}.

Lemma diskView_openM (name : string) : preserves diskView (openM name).
Proof. intros s. unfold diskView. simpl. by rewrite writeCalls_read. Qed.

Lemma diskView_seekM (name : string) (off : Z) :
  preserves diskView (seekM name off).
Proof. intros s. unfold diskView. simpl. by rewrite writeCalls_read. Qed.

Lemma diskView_copyNM (name : string) (off n : Z) :
  preserves diskView (copyNM name off n).
Proof. intros s. unfold diskView. simpl. by rewrite writeCalls_read. Qed.

Lemma diskView_verifyWalk (root : string) (fds : list metainfo.FileDetail) :
  forall pieceLength fileBegin,
    preserves diskView (verifyWalk root fds pieceLength fileBegin).
Proof.
  induction fds as [|fd rest IH]; intros pieceLength fileBegin; simpl;
    [apply preserves_ret|].
  apply preserves_bind; [apply preserves_liftOpt|]. intros p0.
  apply preserves_bind; [apply diskView_openM|].
  intros [e|]; [apply preserves_panic|].
  apply preserves_bind; [apply diskView_seekM|].
  intros [e|]; [apply preserves_panic|].
  apply preserves_bind; [apply diskView_copyNM|].
  intros [data [e|]]; simpl.
  - destruct e; try apply preserves_panic.
    apply preserves_if; [apply IH | apply preserves_ret].
  - apply preserves_if; [apply IH | apply preserves_ret].
Qed.

(** X7: verifying a piece only reads: however verifyPiece ends (verdict
    sent, panic, or parked), the disk is as it was and no file was opened
    for writing or written. *)
Theorem verifyPiece_only_reads (piece : message.Piece) (s : State) :
  st_fs (outState (verifyPiece piece s)) = st_fs s /\
  writeCalls (st_calls (outState (verifyPiece piece s)))
    = writeCalls (st_calls s).
Proof.
  assert (Hp : preserves diskView (verifyPiece piece)).
  { unfold verifyPiece. frame_with ltac:(apply diskView_verifyWalk). }
  specialize (Hp s). unfold diskView in Hp. by injection Hp.
Qed.

(** X8: the verdict of a verification whose reads went through. The
    connection is closed, once, before the verdict is sent. While a
    downloadPiece still receives from the completion channel, exactly one
    value is handed over: nil when the 20-byte digest of what was read
    equals the piece hash of the metadata, errPieceCheckFailed when it
    differs; the channel is closed after it. When no downloadPiece receives
    any more, the receive goroutine stays parked at the send: nothing is
    handed over and the channel is not closed. *)
Theorem verifyPiece_verdict (piece : message.Piece) (s s1 : State)
    (fd0 : metainfo.FileDetail) (expected : list Byte.byte) :
  let pc := st_pc s in
  let mi := MetaInfo (torrent pc) in
  let fds := metainfo.GetFileDetails mi in
  let pieceBegin := pieceBeginOf (metainfo.info mi) piece in
  let writeIndex := getWriteFile pieceBegin fds in
  index_at fds writeIndex = Some fd0 ->
  verifyWalk (Path (torrent pc)) (drop (Z.to_nat writeIndex) fds)
    (to_int64 (metainfo.GetPieceLength mi (message.Index piece)))
    (sub64 pieceBegin (metainfo.Begin fd0)) (set_sha1 [] s) = Done tt s1 ->
  index_at (metainfo.Pieces (metainfo.info mi)) (message.Index piece)
    = Some expected ->
  cstate (downloadedCh pc) = chOpen ->
  ((0 < onDownloaded (st_receivers s))%nat ->
   exists s2 verdict, verifyPiece piece s = Done tt s2 /\
     downloadedCh (st_pc s2)
       = {| sent := sent (downloadedCh pc) ++ [verdict]; cstate := chClosed |} /\
     (array20 (sha1Sum (st_sha1 s1)) = expected -> verdict = None) /\
     (array20 (sha1Sum (st_sha1 s1)) <> expected ->
        verdict = Some errPieceCheckFailed) /\
     closeCalls (conn (st_pc s2)) = S (closeCalls (conn pc))) /\
  (onDownloaded (st_receivers s) = 0%nat ->
   exists s2, verifyPiece piece s = Blocked s2 /\
     downloadedCh (st_pc s2) = downloadedCh pc /\
     closeCalls (conn (st_pc s2)) = S (closeCalls (conn pc))).
Proof.
  intros pc mi fds pieceBegin writeIndex Hfd Hwalk Hexp Hopen.
  assert (Hpc : st_pc s1 = pc).
  { pose proof (preserves_verifyWalk st_pc (fun _ _ _ => eq_refl)
                  (fun _ _ => eq_refl) (Path (torrent pc))
                  (drop (Z.to_nat writeIndex) fds)
                  (to_int64 (metainfo.GetPieceLength mi (message.Index piece)))
                  (sub64 pieceBegin (metainfo.Begin fd0)) (set_sha1 [] s)) as Hp.
    by rewrite Hwalk in Hp. }
  assert (Hrc : st_receivers s1 = st_receivers s).
  { pose proof (preserves_verifyWalk st_receivers (fun _ _ _ => eq_refl)
                  (fun _ _ => eq_refl) (Path (torrent pc))
                  (drop (Z.to_nat writeIndex) fds)
                  (to_int64 (metainfo.GetPieceLength mi (message.Index piece)))
                  (sub64 pieceBegin (metainfo.Begin fd0)) (set_sha1 [] s)) as Hp.
    by rewrite Hwalk in Hp. }
  assert (Hrun : verifyPiece piece s =
    ((if bytes_eqb (array20 (sha1Sum (st_sha1 s1))) expected
      then sendDownloaded None
      else sendDownloaded (Some errPieceCheckFailed));; closeDownloaded)
      (set_pc (connClose pc) s1)).
  { unfold verifyPiece, mbind at 1 2 3 4 5 6 7, M_bind, modify, gets. simpl.
    fold pc mi fds pieceBegin writeIndex. rewrite Hfd. simpl.
    rewrite (index_at_slice_from _ _ _ Hfd). simpl. rewrite Hwalk.
    unfold modifyPc, modify. simpl. rewrite Hpc. fold mi. rewrite Hexp.
    reflexivity. }
  rewrite Hrun. unfold mbind, M_bind.
  unfold sendDownloaded, closeDownloaded, chanSend, chanClose.
  destruct (bytes_eqb _ _) eqn:Heq; simpl; rewrite Hopen, Hrc; split.
  - intros Hrecv. apply Nat.ltb_lt in Hrecv. rewrite Hrecv. simpl.
    eexists _, _. split; [reflexivity|]. simpl. split; [reflexivity|].
    split; [done|]. split; [|done]. intros Hne. by apply bytes_eqb_eq in Heq.
  - intros ->. simpl. eexists. split; [reflexivity|]. done.
  - intros Hrecv. apply Nat.ltb_lt in Hrecv. rewrite Hrecv. simpl.
    eexists _, _. split; [reflexivity|]. simpl. split; [reflexivity|].
    split; [|done]. intros Hyes. apply bytes_eqb_eq in Hyes. congruence.
  - intros ->. simpl. eexists. split; [reflexivity|]. done.
Qed.

Lemma verifyWalk_digest_bound (root : string)
    (fds : list metainfo.FileDetail) :
  (forall fs name off n, Z.of_nat (length (osCopyN fs name off n).1) <= Z.max 0 n) ->
  forall (pieceLength fileBegin : Z) (s : State),
    in_int64 pieceLength ->
    Z.of_nat (length (st_sha1
        (outState (verifyWalk root fds pieceLength fileBegin s))))
    <= Z.of_nat (length (st_sha1 s)) + Z.max 0 pieceLength.
Proof.
  intros Hcopy. induction fds as [|fd rest IH]; intros pieceLength fileBegin s Hpl;
    simpl; [lia|].
  unfold mbind, M_bind, liftOpt.
  destruct (index_at _ _) as [p0|]; simpl; [|lia].
  destruct (osOpen _ _); simpl; [lia|].
  destruct (osSeek _ _ _); simpl; [lia|].
  unfold to_int64. rewrite (wrap64_id pieceLength Hpl).
  pose proof (Hcopy (st_fs s) (gopath.Join [root; p0]) fileBegin pieceLength)
    as Hlen.
  destruct (osCopyN _ _ _ _) as [data err]. simpl in Hlen. simpl.
  assert (Hsub : sub64 pieceLength (wrap64 (Z.of_nat (length data)))
                 = pieceLength - Z.of_nat (length data)).
  { unfold in_int64 in Hpl. unfold sub64.
    rewrite (wrap64_id (Z.of_nat _)) by (unfold in_int64; lia).
    apply wrap64_id. unfold in_int64. lia. }
  rewrite Hsub.
  match goal with
  | |- context [set_sha1 ?x ?y] => set (sc := set_sha1 x y)
  end.
  assert (Hstep : Z.of_nat (length (st_sha1 sc))
                  <= Z.of_nat (length (st_sha1 s)) + Z.max 0 pieceLength)
    by (subst sc; simpl; rewrite length_app; lia).
  assert (Hgo : forall pl', pl' = pieceLength - Z.of_nat (length data) ->
    Z.of_nat (length (st_sha1 (outState (verifyWalk root rest pl' 0 sc))))
    <= Z.of_nat (length (st_sha1 s)) + Z.max 0 pieceLength).
  { intros pl' ->. etransitivity; [apply IH; unfold in_int64 in *; lia|].
    subst sc. simpl. rewrite length_app. lia. }
  destruct err as [e|]; [destruct e|]; simpl; try exact Hstep.
  all: destruct (_ >? 0); simpl; [by apply Hgo | exact Hstep].
Qed.

(** X9: when io.CopyN keeps its contract (it copies at most the number of
    bytes asked for), the digest of a verification is taken over at most
    piece-length bytes, however the files on the disk look and however the
    verification ends. *)
Theorem verifyPiece_digest_bound (piece : message.Piece) (s : State) :
  (forall fs name off n, Z.of_nat (length (osCopyN fs name off n).1) <= Z.max 0 n) ->
  Z.of_nat (length (st_sha1 (outState (verifyPiece piece s))))
  <= Z.max 0 (to_int64 (metainfo.GetPieceLength (MetaInfo (torrent (st_pc s)))
                          (message.Index piece))).
Proof.
  intros Hcopy.
  unfold verifyPiece, mbind, M_bind, modify, gets, liftOpt. simpl.
  destruct (index_at _ _) as [fd0|]; simpl; [|lia].
  destruct (slice_from _ _) as [tail|]; simpl; [|lia].
  match goal with
  | |- context [verifyWalk ?r ?f ?p ?b ?s0] =>
      pose proof (verifyWalk_digest_bound r f Hcopy p b s0 (wrap64_range _)) as Hw;
      destruct (verifyWalk r f p b s0) as [[] s1|s1|s1]
  end; simpl in Hw; simpl; try lia.
  unfold modifyPc, modify. simpl.
  destruct (index_at _ _) as [expected|]; simpl; [|lia].
  destruct (bytes_eqb _ _);
    unfold sendDownloaded, closeDownloaded, chanSend, chanClose; simpl;
    destruct (cstate _); simpl; try lia;
    destruct (0 <? _)%nat; simpl; lia.
Qed.

End Verify.

(** The file on the disk holds the four bytes the piece hash was taken of.
    With a downloadPiece receiving, the verdict is nil; with none, the
    verification is parked with the connection closed and nothing sent. *)
Lemma verifyPiece_verdict_witness :
  (exists s2, verifyPiece (Ev := Example.env) Sample.piece0
                (Sample.storedState Example.fourBytes) = Done tt s2 /\
     downloadedCh (st_pc s2) = {| sent := [None]; cstate := chClosed |}) /\
  (exists s2, verifyPiece (Ev := Example.env) Sample.piece0
                (set_receivers Example.gone
                   (Sample.storedState Example.fourBytes)) = Blocked s2 /\
     downloadedCh (st_pc s2) = makeChan /\
     closeCalls (conn (st_pc s2)) = 1%nat).
Proof.
  split.
  - edestruct (fun s1 =>
        verifyPiece_verdict (Ev := Example.env) Sample.piece0
          (Sample.storedState Example.fourBytes) s1
          (Example.fd ["a.txt"] 0 4)
          (array20 (Example.toyDigest Example.fourBytes)))
      as [Hyes _].
    + vm_compute. reflexivity.
    + vm_compute. reflexivity.
    + vm_compute. reflexivity.
    + vm_compute. reflexivity.
    + destruct Hyes as (s2 & verdict & Hrun & Hch & Hnil & _).
      { vm_compute. lia. }
      exists s2. split; [exact Hrun|]. rewrite Hch.
      rewrite Hnil by (vm_compute; reflexivity). reflexivity.
  - edestruct (fun s1 =>
        verifyPiece_verdict (Ev := Example.env) Sample.piece0
          (set_receivers Example.gone (Sample.storedState Example.fourBytes)) s1
          (Example.fd ["a.txt"] 0 4)
          (array20 (Example.toyDigest Example.fourBytes)))
      as [_ Hno].
    + vm_compute. reflexivity.
    + vm_compute. reflexivity.
    + vm_compute. reflexivity.
    + vm_compute. reflexivity.
    + destruct Hno as (s2 & Hrun & Hch & Hcl); [reflexivity|].
      exists s2. split; [exact Hrun|]. split; [exact Hch | exact Hcl].
Defined.

(** The file on the disk is longer than the piece: four bytes are hashed. *)
Lemma verifyPiece_digest_bound_witness :
  Z.of_nat (length (st_sha1 (outState
    (verifyPiece (Ev := Example.env) Sample.piece0
       (Sample.storedState (Example.fourBytes ++ Example.fourBytes))))))
  <= 4.
Proof.
  apply (verifyPiece_digest_bound (Ev := Example.env) Sample.piece0
           (Sample.storedState (Example.fourBytes ++ Example.fourBytes))).
  intros fs name off n. simpl. unfold Example.d_CopyN.
  destruct (Example.lookupFile _ _); simpl; [|lia].
  rewrite length_take. lia.
Defined.

(** ** Requesting the blocks of a piece *)

Section RequestsMore.
Context {T : Types} {Ev : Env}.

Lemma requestLoop_closes (n : nat) :
  forall (i index pieceLength blockCount : Z) (sch : schedule) (pc : peerConn),
    match (requestLoop n i index pieceLength blockCount sch pc).2 with
    | loopReturn err =>
        err <> None /\
        closeCalls (conn (requestLoop n i index pieceLength blockCount sch pc).1)
          = S (closeCalls (conn pc))
    | loopEnd _ =>
        closeCalls (conn (requestLoop n i index pieceLength blockCount sch pc).1)
          = closeCalls (conn pc)
    end.
Proof.
  induction n as [|n IH]; intros i index pieceLength blockCount sch pc;
    [done|].
  simpl. destruct (isBlockDone _ _ _); [apply IH|].
  destruct (selectAt sch i) as [|[[e|]|]|[[e|]|]]; simpl; try done.
  all: destruct (connWriteErr _ _); simpl; [done|].
  all: match goal with
       | |- context [requestLoop ?n' ?i' ?ix ?pl ?bc ?sc ?p] =>
           specialize (IH i' ix pl bc sc p);
           destruct (requestLoop n' i' ix pl bc sc p) as [pc' [e'|e']]
       end; simpl in *; done.
Qed.

(** X10: downloadPiece closes the connection exactly when it returns an
    error, and then once; when it returns nil it leaves the connection
    open. Either way the queue of in-flight requests is closed on
    return. *)
Theorem downloadPiece_closes_on_error (index : Z) (sch : schedule)
    (pc : peerConn) (blockCount : Z) :
  ps_blockCount (pieceStates (torrent pc)) index = Some blockCount ->
  exists pc' err, downloadPiece index sch pc = Some (pc', err) /\
    closeCalls (conn pc')
      = match err with
        | Some _ => S (closeCalls (conn pc))
        | None => closeCalls (conn pc)
        end /\
    qstate (blockQueueCh pc') = chClosed.
Proof.
  intros Hbc. unfold downloadPiece.
  set (pc0 := set_blockQueueCh _ _).
  change (pieceStates (torrent pc0)) with (pieceStates (torrent pc)).
  rewrite Hbc.
  match goal with
  | |- context [requestLoop ?n ?i ?ix ?pl ?bc ?sc ?p] =>
      pose proof (requestLoop_closes n i ix pl bc sc p) as Hc;
      destruct (requestLoop n i ix pl bc sc p) as [pc1 [e|e]]
  end.
  - simpl in Hc. unfold finalReceive, recvDownloaded, recvDisconnect.
    destruct (finalChan sch), (finalGot sch) as [[e'|]|];
      eexists _, _; (split; [reflexivity|]); simpl; rewrite Hc; done.
  - simpl in Hc. destruct Hc as [Hne Hc]. destruct e as [e|]; [|done].
    eexists _, _. split; [reflexivity|]. simpl. rewrite Hc. done.
Qed.

End RequestsMore.

Lemma downloadPiece_closes_on_error_witness :
  exists pc' err,
    downloadPiece (Ev := Example.env) 0 Example.idleSchedule Example.threeBlocks
      = Some (pc', err) /\
    closeCalls (conn pc') = match err with Some _ => 1%nat | None => 0%nat end /\
    qstate (blockQueueCh pc') = chClosed.
Proof.
  destruct (downloadPiece_closes_on_error (Ev := Example.env) 0
              Example.idleSchedule Example.threeBlocks 3)
    as (pc' & err & Hrun & Hclose & Hq); [reflexivity|].
  exists pc', err. split; [exact Hrun|]. split; [exact Hclose | exact Hq].
Defined.

Lemma sumZ_snoc (l : list Z) (x : Z) : sumZ (l ++ [x]) = sumZ l + x.
Proof. induction l as [|y l IH]; simpl; lia. Qed.

Section RequestsAll.
Context {T : Types} {Ev : Env}.
Variables (index pieceLength blockCount : Z) (sch : schedule).
Hypothesis index_range : 0 <= index < 2 ^ 32.
Hypothesis pieceLength_range : 0 <= pieceLength < 2 ^ 32.
Hypothesis blocks_fit : blockSize * (blockCount - 1) <= pieceLength.
Hypothesis always_slot : forall i, selectAt sch i = selQueue.
Hypothesis writes_succeed : forall c p, connWriteErr c p = None.

Lemma requestLoop_all (n : nat) :
  forall (i : Z) (pc : peerConn),
    0 <= i -> i + Z.of_nat n = blockCount ->
    exists pc',
      requestLoop n i index pieceLength blockCount sch pc = (pc', loopEnd None) /\
      written (conn pc')
        = written (conn pc) ++
          (requestFor index pieceLength blockCount <$>
             filter (fun j => isBlockDone (trackerAt sch j) index (blockSize * j)
                              = false)
               (seqZ i (Z.of_nat n))).
Proof.
  induction n as [|n IH]; intros i pc Hi Hn.
  - exists pc. split; [done|]. simpl. by rewrite app_nil_r.
  - rewrite requestLoop_S.
    rewrite seqZ_cons by lia.
    replace (Z.pred (Z.of_nat (S n))) with (Z.of_nat n) by lia.
    replace (Z.succ i) with (i + 1) by lia.
    assert (Hoff : mul64 blockSize i = blockSize * i).
    { apply wrap64_id. unfold in_int64. rewrite blockSize_eq in *. lia. }
    rewrite filter_cons.
    rewrite (buildRequest_expected index pieceLength blockCount
               index_range pieceLength_range blocks_fit) by lia.
    rewrite Hoff.
    destruct (isBlockDone (trackerAt sch i) index (blockSize * i)) eqn:Hdone.
    + destruct (decide (true = false)) as [|_]; [done|].
      destruct (IH (i + 1) pc) as (pc' & Hrun & Hw); [lia | lia |].
      exists pc'. split; [exact Hrun | exact Hw].
    + destruct (decide (false = false)) as [_|]; [|done].
      rewrite always_slot. cbv beta iota zeta. unfold connWrite.
      rewrite writes_succeed.
      edestruct (IH (i + 1)) as (pc' & Hrun & Hw); [lia | lia |].
      exists pc'. split; [exact Hrun|]. rewrite Hw. simpl.
      by rewrite <- app_assoc.
Qed.

End RequestsAll.

(** X11: when a queue slot is free at every turn and every write succeeds,
    downloadPiece requests every block of the piece that the tracker does
    not have when its turn comes, each once and in increasing order, skips
    exactly the blocks the tracker has, and returns what the final wait on
    the completion and disconnect channels received. *)
Theorem downloadPiece_requests_missing_blocks {T : Types} {Ev : Env}
    (index : Z) (sch : schedule) (pc : peerConn) (blockCount : Z) :
  let pieceLength := metainfo.GetPieceLength (MetaInfo (torrent pc)) index in
  ps_blockCount (pieceStates (torrent pc)) index = Some blockCount ->
  0 <= index < 2 ^ 32 ->
  0 <= pieceLength < 2 ^ 32 ->
  blockSize * (blockCount - 1) <= pieceLength ->
  (forall i, selectAt sch i = selQueue) ->
  (forall c p, connWriteErr c p = None) ->
  exists pc', downloadPiece index sch pc = Some (pc', finalSelect sch) /\
    written (conn pc')
      = written (conn pc) ++
        (requestFor index pieceLength blockCount <$>
           filter (fun j => isBlockDone (trackerAt sch j) index (blockSize * j)
                            = false)
             (seqZ 0 blockCount)).
Proof.
  intros pieceLength Hbc Hindex Hlen Hfit Hslot Hwrite.
  unfold downloadPiece, to_int64. fold pieceLength.
  rewrite (wrap64_id pieceLength) by (unfold in_int64; lia).
  set (pc0 := set_blockQueueCh _ _).
  change (pieceStates (torrent pc0)) with (pieceStates (torrent pc)).
  rewrite Hbc.
  assert (Hloop : exists pc1,
    requestLoop (Z.to_nat blockCount) 0 index pieceLength blockCount sch pc0
      = (pc1, loopEnd None) /\
    written (conn pc1)
      = written (conn pc) ++
        (requestFor index pieceLength blockCount <$>
           filter (fun j => isBlockDone (trackerAt sch j) index (blockSize * j)
                            = false)
             (seqZ 0 blockCount))).
  { destruct (Z.le_gt_cases 0 blockCount) as [Hpos|Hneg].
    - destruct (requestLoop_all index pieceLength blockCount sch
                  Hindex Hlen Hfit Hslot Hwrite (Z.to_nat blockCount) 0 pc0)
        as (pc1 & Hrun & Hw); [lia | lia |].
      exists pc1. split; [exact Hrun|]. by rewrite Z2Nat.id in Hw.
    - exists pc0. replace (Z.to_nat blockCount) with 0%nat by lia.
      split; [done|]. simpl.
      replace (seqZ 0 blockCount) with (@nil Z); [by rewrite app_nil_r|].
      unfold seqZ. by replace (Z.to_nat blockCount) with 0%nat by lia. }
  destruct Hloop as (pc1 & -> & Hw).
  unfold finalSelect, finalReceive, recvDownloaded, recvDisconnect.
  destruct (finalChan sch), (finalGot sch) as [[e|]|];
    eexists; (split; [reflexivity|]); exact Hw.
Qed.

(** Three blocks, the second already done: blocks 0 and 2 are requested. *)
Lemma downloadPiece_requests_missing_blocks_witness :
  exists pc',
    downloadPiece (Ev := Example.env) 0 Example.idleSchedule Example.threeBlocks
      = Some (pc', None) /\
    written (conn pc') = requestFor 0 40000 3 <$> [0; 2].
Proof.
  destruct (downloadPiece_requests_missing_blocks (Ev := Example.env) 0
              Example.idleSchedule Example.threeBlocks 3)
    as (pc' & Hrun & Hw).
  - reflexivity.
  - lia.
  - simpl. lia.
  - simpl. rewrite blockSize_eq. lia.
  - reflexivity.
  - reflexivity.
  - exists pc'. split; [exact Hrun|]. rewrite Hw. vm_compute. reflexivity.
Defined.

(** ** The lengths of the blocks of a piece *)

Lemma blockLengths_before_last (pieceLength blockCount : Z) (n : nat) :
  Z.of_nat n <= blockCount - 1 -> blockCount < 2 ^ 62 ->
  sumZ (blockLengthOf pieceLength blockCount <$> seqZ 0 (Z.of_nat n))
  = blockSize * Z.of_nat n.
Proof.
  intros Hn Hbc. induction n as [|n IH]; [by rewrite Z.mul_0_r|].
  rewrite seqZ_S, fmap_app. cbn [fmap list_fmap].
  rewrite sumZ_snoc, IH by lia.
  unfold blockLengthOf, sub64.
  rewrite wrap64_id by (unfold in_int64; lia).
  destruct (_ =? _) eqn:E; lia.
Qed.

(** X12: the block lengths downloadPiece computes tile the piece: the
    offset it gives block j is the total length of the blocks before it,
    and the lengths of all blockCount blocks add up to the piece length. *)
Theorem block_lengths_tile_the_piece (pieceLength blockCount : Z) :
  1 <= blockCount ->
  blockSize * (blockCount - 1) <= pieceLength ->
  pieceLength - blockSize * (blockCount - 1) < 2 ^ 32 ->
  pieceLength < 2 ^ 63 ->
  sumZ (blockLengthOf pieceLength blockCount <$> seqZ 0 blockCount)
    = pieceLength /\
  forall j, 0 <= j < blockCount ->
    mul64 blockSize j
      = sumZ (blockLengthOf pieceLength blockCount <$> seqZ 0 j).
Proof.
  intros Hbc Hfit Hlast Hpl. pose proof blockSize_eq as Hbs.
  assert (Hsmall : blockCount < 2 ^ 62) by (rewrite Hbs in *; lia).
  split.
  - replace blockCount with (Z.of_nat (S (Z.to_nat (blockCount - 1)))) at 2 by lia.
    rewrite seqZ_S, fmap_app. cbn [fmap list_fmap]. rewrite sumZ_snoc.
    rewrite blockLengths_before_last by lia.
    rewrite Z2Nat.id by lia. unfold blockLengthOf, sub64.
    rewrite (wrap64_id (blockCount - 1)) by (unfold in_int64; lia).
    rewrite Z.eqb_refl. unfold mul64.
    rewrite (wrap64_id (blockSize * _)) by (unfold in_int64; rewrite Hbs in *; lia).
    rewrite wrap64_id by (unfold in_int64; rewrite Hbs in *; lia).
    rewrite to_uint32_id by lia. lia.
  - intros j Hj. replace j with (Z.of_nat (Z.to_nat j)) at 2 by lia.
    rewrite blockLengths_before_last by lia. rewrite Z2Nat.id by lia.
    apply wrap64_id. unfold in_int64. rewrite Hbs in *. lia.
Qed.

(** A piece of 40000 bytes in three blocks: 16384 + 16384 + 7232. *)
Lemma block_lengths_tile_the_piece_witness :
  sumZ (blockLengthOf 40000 3 <$> seqZ 0 3) = 40000.
Proof.
  apply (block_lengths_tile_the_piece 40000 3);
    rewrite ?blockSize_eq; lia.
Defined.

(** ** The handshake and the keepalive loop *)

Section ConnectionMore.
Context {T : Types} {Ev : Env}.

(** X13: handshake writes exactly one packet, the handshake request (eight
    zero reserved bytes, the torrent's info hash, the local peer id), and
    nothing else. It closes the connection exactly when it fails, once, and
    then returns no response; when it succeeds the connection stays open
    and the response returned is one the decoder produced, carrying the
    info hash that was sent. *)
Theorem handshake_writes_request_closes_on_error (pc : peerConn) :
  let mi := MetaInfo (torrent pc) in
  written (conn (handshake pc).1)
    = written (conn pc) ++
      [pktHandshake (replicate 8 Byte.x00) (metainfo.GetInfoHash mi)
         (PeerID (torrent pc))] /\
  match (handshake pc).2 with
  | (res, None) =>
      closeCalls (conn (handshake pc).1) = closeCalls (conn pc) /\
      exists h read, res = Some h /\ HandshakeDecode read = inl h /\
        peer.InfoHash h = metainfo.GetInfoHash mi
  | (res, Some _) =>
      closeCalls (conn (handshake pc).1) = S (closeCalls (conn pc)) /\
      res = None
  end.
Proof.
  intros mi. unfold handshake, handshakeExchange, connWrite, peer.NewHandshake.
  simpl. fold mi.
  destruct (connWriteErr _ _); simpl; [done|].
  destruct (connReadFull _ _) as [read [e|]]; simpl; [done|].
  destruct (HandshakeDecode read) as [h|e] eqn:Hd; simpl; [|done].
  destruct (bytes_eqb _ _) eqn:Heq; simpl; [|done].
  split; [done|]. split; [done|]. exists h, read.
  by apply bytes_eqb_eq in Heq.
Qed.

Lemma keepaliveLoop_live (ticks : list tick) :
  (forall c p, connWriteErr c p = None) ->
  Forall (fun t => exists r, tk_received t = Some r /\
                    in_int64 (tk_now t - r) /\
                    tk_now t - r <= keepaliveTimeout) ticks ->
  forall pc : peerConn,
    exists pc', keepaliveLoop ticks pc = (pc', None) /\
      written (conn pc')
        = written (conn pc) ++ replicate (length ticks) (pktBytes keepaliveData) /\
      closeCalls (conn pc') = closeCalls (conn pc).
Proof.
  intros Hwrite. induction 1 as [|t rest (r & Hr & Hrange & Hlive) _ IH];
    intros pc.
  - exists pc. simpl. by rewrite app_nil_r.
  - simpl. rewrite Hr. unfold keepaliveTick, sub64. simpl.
    rewrite (wrap64_id _ Hrange).
    destruct (_ >? _) eqn:Hidle; [lia|].
    unfold connWrite. rewrite Hwrite.
    edestruct IH as (pc' & Hrun & Hw & Hc).
    exists pc'. rewrite Hrun. split; [done|]. rewrite Hw, Hc. simpl.
    split; [|done]. by rewrite <- app_assoc.
Qed.

(** X14: while the peer keeps talking (at every tick the last frame is at
    most keepaliveTimeout seconds old) and writes succeed, the keepalive
    loop never stops and never closes the connection: it sends one 4-byte
    keepalive per tick and nothing else. *)
Theorem handleKeepalive_runs_while_peer_talks (start : Z)
    (ticks : list tick) (pc : peerConn) :
  (forall c p, connWriteErr c p = None) ->
  Forall (fun t => exists r, tk_received t = Some r /\
                    in_int64 (tk_now t - r) /\
                    tk_now t - r <= keepaliveTimeout) ticks ->
  exists pc', handleKeepalive start ticks pc = (pc', None) /\
    written (conn pc')
      = written (conn pc) ++ replicate (length ticks) (pktBytes keepaliveData) /\
    closeCalls (conn pc') = closeCalls (conn pc).
Proof.
  intros Hwrite Hlive. unfold handleKeepalive.
  destruct (keepaliveLoop_live ticks Hwrite Hlive (set_lastReciveTime start pc))
    as (pc' & Hrun & Hw & Hc).
  exists pc'. split; [exact Hrun|]. split; [exact Hw | exact Hc].
Qed.

Lemma keepaliveLoop_close (ticks : list tick) :
  forall pc : peerConn,
    let r := keepaliveLoop ticks pc in
    closeCalls (conn r.1)
      = match r.2 with
        | Some _ => S (closeCalls (conn pc))
        | None => closeCalls (conn pc)
        end /\
    exists k : nat, (k <= length ticks)%nat /\
      written (conn r.1)
        = written (conn pc) ++ replicate k (pktBytes keepaliveData).
Proof.
  induction ticks as [|t rest IH]; intros pc; simpl.
  - split; [done|]. exists 0%nat. simpl. by rewrite app_nil_r.
  - set (pc0 := match tk_received t with
                | Some r => set_lastReciveTime r pc
                | None => pc
                end).
    assert (Hc0 : conn pc0 = conn pc) by (subst pc0; by destruct (tk_received t)).
    unfold keepaliveTick. destruct (_ >? _); simpl.
    + rewrite Hc0. split; [done|]. exists 0%nat. simpl.
      split; [lia | by rewrite app_nil_r].
    + unfold connWrite. destruct (connWriteErr _ _) as [e|]; simpl.
      * rewrite Hc0. split; [done|]. exists 1%nat. simpl. split; [lia | done].
      * match goal with
        | |- context [keepaliveLoop rest ?p] =>
            destruct (IH p) as (Hclose & k & Hk & Hw)
        end.
        simpl in Hclose, Hw. rewrite <- Hc0.
        split; [exact Hclose|]. exists (S k). split; [lia|].
        rewrite Hw. simpl. by rewrite <- app_assoc.
Qed.

(** X15: whatever the clock and the network do, the keepalive loop closes
    the connection exactly when it stops, and then once (while it runs the
    connection is never closed by it); and all it ever writes are
    keepalives, at most one per tick. *)
Theorem handleKeepalive_closes_when_it_stops (start : Z) (ticks : list tick)
    (pc : peerConn) :
  closeCalls (conn (handleKeepalive start ticks pc).1)
    = match (handleKeepalive start ticks pc).2 with
      | Some _ => S (closeCalls (conn pc))
      | None => closeCalls (conn pc)
      end /\
  exists k : nat, (k <= length ticks)%nat /\
    written (conn (handleKeepalive start ticks pc).1)
      = written (conn pc) ++ replicate k (pktBytes keepaliveData).
Proof.
  unfold handleKeepalive.
  apply (keepaliveLoop_close ticks (set_lastReciveTime start pc)).
Qed.

End ConnectionMore.

Lemma handleKeepalive_runs_while_peer_talks_witness :
  exists pc',
    handleKeepalive (Ev := Example.env) 0 Sample.liveTicks Example.threeBlocks
      = (pc', None) /\
    written (conn pc') = [pktBytes keepaliveData; pktBytes keepaliveData] /\
    closeCalls (conn pc') = 0%nat.
Proof.
  apply (handleKeepalive_runs_while_peer_talks (Ev := Example.env) 0
           Sample.liveTicks Example.threeBlocks).
  - reflexivity.
  - repeat constructor.
    + exists 100. split; [reflexivity|]. unfold in_int64. simpl.
      change keepaliveTimeout with 120. lia.
    + exists 130. split; [reflexivity|]. unfold in_int64. simpl.
      change keepaliveTimeout with 120. lia.
Defined.

(** ** The receive loop *)

(** Handlers against a view of the connection: the loops over FileBlocks and
    files by their lemmas, the rest by [frame_with]. *)
Ltac keep :=
  frame_with ltac:(first
    [ apply preserves_writeFileBlocks; intros; reflexivity
    | apply preserves_verifyWalk; intros; reflexivity ]).

Section ReceiveMore.
Context {T : Types} {Ev : Env}.

Lemma outState_bind_inv {A B} (P : State -> Prop) (m : M A) (k : A -> M B)
    (s : State) :
  P (outState (m s)) ->
  (forall a s', P s' -> P (outState (k a s'))) ->
  P (outState ((m ≫= k) s)).
Proof.
  intros Hm Hk. unfold mbind, M_bind.
  destruct (m s) as [a s'| |]; simpl in *; auto.
Qed.

Lemma time_handleUnchoke :
  preserves (fun s => lastReciveTime (st_pc s)) handleUnchoke.
Proof. unfold handleUnchoke. keep. Qed.

Lemma time_handleBitfield (buf : list Byte.byte) :
  preserves (fun s => lastReciveTime (st_pc s)) (handleBitfield buf).
Proof. unfold handleBitfield. keep. Qed.

Lemma time_handlePiece (buf : list Byte.byte) :
  preserves (fun s => lastReciveTime (st_pc s)) (handlePiece buf).
Proof. unfold handlePiece. keep. unfold verifyPiece. keep. Qed.

Lemma time_dispatch (fr : frame) (s : State) :
  lastReciveTime (st_pc (outState (dispatch fr s))) = f_now fr.
Proof.
  unfold dispatch, mbind, M_bind, modifyPc, modify.
  set (s0 := set_pc _ s).
  change (f_now fr) with (lastReciveTime (st_pc s0)).
  destruct (f_kind fr); try reflexivity.
  - apply time_handleUnchoke.
  - apply time_handleBitfield.
  - apply time_handlePiece.
Qed.

(** X16: the time stored as last-received is the arrival time of the last
    frame handled: no handler touches it, whatever the frame carried. *)
Theorem recvLoop_records_last_arrival (frames : list frame) (fr : frame)
    (s s' : State) :
  recvLoop (frames ++ [fr]) s = Done tt s' ->
  lastReciveTime (st_pc s') = f_now fr.
Proof.
  rewrite recvLoop_app.
  destruct (recvLoop frames s) as [[] s1| |]; [|done|done].
  simpl. unfold mbind, M_bind.
  pose proof (time_dispatch fr s1) as Ht.
  destruct (dispatch fr s1) as [[] s2| |]; [|done|done].
  intros [= <-]. exact Ht.
Qed.

Lemma disc_handleUnchoke :
  preserves (fun s => disconnectCh (st_pc s)) handleUnchoke.
Proof. unfold handleUnchoke. keep. Qed.

Lemma disc_handleBitfield (buf : list Byte.byte) :
  preserves (fun s => disconnectCh (st_pc s)) (handleBitfield buf).
Proof. unfold handleBitfield. keep. Qed.

Lemma disc_handlePiece (buf : list Byte.byte) :
  preserves (fun s => disconnectCh (st_pc s)) (handlePiece buf).
Proof. unfold handlePiece. keep. unfold verifyPiece. keep. Qed.

Lemma disc_recvLoop (frames : list frame) :
  preserves (fun s => disconnectCh (st_pc s)) (recvLoop frames).
Proof.
  induction frames as [|fr rest IH]; simpl; [apply preserves_ret|].
  apply preserves_bind; [|intros _; apply IH].
  unfold dispatch. apply preserves_bind; [keep|]. intros _.
  destruct (f_kind fr); try apply preserves_ret.
  - apply disc_handleUnchoke.
  - apply disc_handleBitfield.
  - apply disc_handlePiece.
Qed.

Lemma takers_recvLoop (frames : list frame) :
  preserves (fun s => onDisconnect (st_receivers s)) (recvLoop frames).
Proof.
  induction frames as [|fr rest IH]; simpl; [apply preserves_ret|].
  apply preserves_bind; [|intros _; apply IH].
  unfold dispatch. apply preserves_bind; [keep|]. intros _.
  destruct (f_kind fr); try apply preserves_ret.
  - unfold handleUnchoke. keep.
  - unfold handleBitfield. keep.
  - unfold handlePiece. keep. unfold verifyPiece. keep.
Qed.

(** X17: when the scanning loop ends, the receive goroutine reports on the
    disconnect channel, and what it reports is never nil: the scanner's
    error, or io.EOF when the scanner has none. No handler sends on that
    channel or takes it over before. While a downloadPiece still receives
    from the channel, the report is handed over, exactly once, and the
    channel is closed. When none does (the download went through, or none
    was started), the goroutine stays parked at the send: nothing is handed
    over and the channel is never closed. *)
Theorem recvGoroutine_reports_disconnect (frames : list frame)
    (scanErr : goerror) (s s1 : State) :
  cstate (disconnectCh (st_pc s)) = chOpen ->
  recvLoop frames s = Done tt s1 ->
  ((0 < onDisconnect (st_receivers s))%nat ->
   exists s2 e, recvGoroutine frames scanErr s = Done tt s2 /\
     disconnectCh (st_pc s2)
       = {| sent := sent (disconnectCh (st_pc s)) ++ [Some e];
            cstate := chClosed |} /\
     e = default errEOF scanErr) /\
  (onDisconnect (st_receivers s) = 0%nat ->
   recvGoroutine frames scanErr s = Blocked s1 /\
   disconnectCh (st_pc s1) = disconnectCh (st_pc s)).
Proof.
  intros Hopen Hrun.
  pose proof (disc_recvLoop frames s) as Hd. rewrite Hrun in Hd. simpl in Hd.
  pose proof (takers_recvLoop frames s) as Ht. rewrite Hrun in Ht. simpl in Ht.
  unfold recvGoroutine, recvEnd, mbind, M_bind. rewrite Hrun.
  unfold sendDisconnect, closeDisconnect, chanSend, chanClose.
  rewrite Hd, Hopen, Ht. split.
  - intros Hrecv. apply Nat.ltb_lt in Hrecv. rewrite Hrecv. simpl.
    eexists _, (default errEOF scanErr).
    split; [reflexivity|]. by destruct scanErr.
  - intros ->. by destruct scanErr.
Qed.

Lemma interest_handleUnchoke :
  preserves (fun s => peerInterested (st_pc s)) handleUnchoke.
Proof. unfold handleUnchoke. keep. Qed.

Lemma interest_handleBitfield (buf : list Byte.byte) :
  preserves (fun s => peerInterested (st_pc s)) (handleBitfield buf).
Proof. unfold handleBitfield. keep. Qed.

Lemma interest_handlePiece (buf : list Byte.byte) :
  preserves (fun s => peerInterested (st_pc s)) (handlePiece buf).
Proof. unfold handlePiece. keep. unfold verifyPiece. keep. Qed.

Lemma choking_handleBitfield (buf : list Byte.byte) :
  preserves (fun s => peerChoking (st_pc s)) (handleBitfield buf).
Proof. unfold handleBitfield. keep. Qed.

Lemma choking_handlePiece (buf : list Byte.byte) :
  preserves (fun s => peerChoking (st_pc s)) (handlePiece buf).
Proof. unfold handlePiece. keep. unfold verifyPiece. keep. Qed.

Lemma choking_handleUnchoke (s : State) :
  peerChoking (st_pc (outState (handleUnchoke s))) = false.
Proof.
  destruct s as [pc0 [snt st] [[|n] d1 d2] fs0 calls0 sha0];
    unfold handleUnchoke, mbind, M_bind, modifyPc, modify, gets;
    simpl; (destruct (readyEnd pc0); [reflexivity|]);
    unfold sendReady, closeReady, chanSend, chanClose; simpl;
    destruct (amInterested pc0), st; reflexivity.
Qed.

Lemma choking_dispatch (fr : frame) (s : State) :
  peerChoking (st_pc s) = false ->
  peerChoking (st_pc (outState (dispatch fr s))) = false.
Proof.
  intros Hs. unfold dispatch, mbind, M_bind, modifyPc, modify.
  set (s0 := set_pc _ s).
  assert (H0 : peerChoking (st_pc s0) = false) by exact Hs.
  destruct (f_kind fr); try exact H0.
  - apply choking_handleUnchoke.
  - by rewrite (choking_handleBitfield (f_buf fr) s0).
  - by rewrite (choking_handlePiece (f_buf fr) s0).
Qed.

(** X18: the receive loop keeps no account of Choke, Interested or
    NotInterested messages: whatever frames arrive, the remote-interested
    flag is never changed, and once the remote-choking flag is cleared (by
    an Unchoke) it stays cleared, a later Choke included. *)
Theorem recvLoop_ignores_choke_and_interest (frames : list frame) (s : State) :
  peerInterested (st_pc (outState (recvLoop frames s)))
    = peerInterested (st_pc s) /\
  (peerChoking (st_pc s) = false ->
   peerChoking (st_pc (outState (recvLoop frames s))) = false).
Proof.
  split.
  - revert s. induction frames as [|fr rest IH]; [done|].
    intros s. simpl. apply (outState_bind_inv
      (fun s' => peerInterested (st_pc s') = peerInterested (st_pc s))).
    + unfold dispatch.
      assert (Hp : preserves (fun s => peerInterested (st_pc s)) (dispatch fr)).
      { unfold dispatch. apply preserves_bind; [keep|]. intros _.
        destruct (f_kind fr); try apply preserves_ret.
        - apply interest_handleUnchoke.
        - apply interest_handleBitfield.
        - apply interest_handlePiece. }
      apply Hp.
    + intros _ s' Hs'. by rewrite IH.
  - revert s. induction frames as [|fr rest IH]; [done|].
    intros s Hs. simpl. apply (outState_bind_inv
      (fun s' => peerChoking (st_pc s') = false)).
    + by apply choking_dispatch.
    + intros _ s' Hs'. by apply IH.
Qed.

End ReceiveMore.

Lemma recvLoop_records_last_arrival_witness :
  exists s', recvLoop (Ev := Example.env)
               [Example.bitfieldFrame; Example.unchokeFrame] Example.freshState
             = Done tt s' /\
    lastReciveTime (st_pc s') = 101.
Proof.
  eexists. split; [vm_compute; reflexivity|].
  apply (recvLoop_records_last_arrival (Ev := Example.env)
           [Example.bitfieldFrame] Example.unchokeFrame Example.freshState).
  vm_compute. reflexivity.
Defined.

(** The peer hangs up after two frames. With a downloadPiece receiving,
    io.EOF is handed over and the channel closed; with none, the goroutine
    is parked and the channel stays open and empty. *)
Lemma recvGoroutine_reports_disconnect_witness :
  (exists s2,
     recvGoroutine (Ev := Example.env)
       [Example.bitfieldFrame; Example.unchokeFrame] None Example.freshState
     = Done tt s2 /\
     disconnectCh (st_pc s2) = {| sent := [Some errEOF]; cstate := chClosed |}) /\
  (exists s1,
     recvGoroutine (Ev := Example.env)
       [Example.bitfieldFrame; Example.unchokeFrame] None
       (set_receivers {| onReady := 1; onDownloaded := 0; onDisconnect := 0 |}
          Example.freshState)
     = Blocked s1 /\
     disconnectCh (st_pc s1) = makeChan).
Proof.
  split.
  - edestruct (recvGoroutine_reports_disconnect (Ev := Example.env)
                 [Example.bitfieldFrame; Example.unchokeFrame] None
                 Example.freshState)
      as [Hyes _].
    + reflexivity.
    + vm_compute. reflexivity.
    + destruct Hyes as (s2 & e & Hrun & Hch & ->); [vm_compute; lia|].
      exists s2. split; [exact Hrun | exact Hch].
  - edestruct (recvGoroutine_reports_disconnect (Ev := Example.env)
                 [Example.bitfieldFrame; Example.unchokeFrame] None
                 (set_receivers
                    {| onReady := 1; onDownloaded := 0; onDisconnect := 0 |}
                    Example.freshState))
      as [_ Hno].
    + reflexivity.
    + vm_compute. reflexivity.
    + destruct Hno as [Hrun Hch]; [reflexivity|].
      eexists. split; [exact Hrun | exact Hch].
Defined.

(** ** What the readiness signal says *)

Section ReadyValue.
Context {T : Types} {Ev : Env}.

Lemma amI_handlePiece (buf : list Byte.byte) :
  preserves (fun s => amInterested (st_pc s)) (handlePiece buf).
Proof. unfold handlePiece. keep. unfold verifyPiece. keep. Qed.

Lemma amI_handleUnchoke :
  preserves (fun s => amInterested (st_pc s)) handleUnchoke.
Proof. unfold handleUnchoke. keep. Qed.

Lemma amI_handleBitfield_true (buf : list Byte.byte) (s : State) :
  amInterested (st_pc s) = true ->
  amInterested (st_pc (outState (handleBitfield buf s))) = true.
Proof.
  intros Hs. unfold handleBitfield, mbind, M_bind, modifyPc, modify, gets.
  simpl. by destruct (0 <? _)%nat.
Qed.

Lemma amI_recvLoop_quiet (frames : list frame) :
  Forall (fun f => f_kind f <> inUnchoke /\ f_kind f <> inBitfield) frames ->
  preserves (fun s => amInterested (st_pc s)) (recvLoop frames).
Proof.
  induction 1 as [|fr rest [Hu Hb] _ IH]; simpl; [apply preserves_ret|].
  apply preserves_bind; [|intros _; apply IH].
  unfold dispatch. apply preserves_bind; [keep|]. intros _.
  destruct (f_kind fr); try done; try apply preserves_ret.
  apply amI_handlePiece.
Qed.

Lemma amI_recvLoop_true (frames : list frame) :
  forall s : State,
    amInterested (st_pc s) = true ->
    amInterested (st_pc (outState (recvLoop frames s))) = true.
Proof.
  induction frames as [|fr rest IH]; intros s Hs; [done|].
  simpl. apply (outState_bind_inv (fun s' => amInterested (st_pc s') = true));
    [|intros _ s' Hs'; by apply IH].
  unfold dispatch. apply (outState_bind_inv
    (fun s' => amInterested (st_pc s') = true)); [exact Hs|].
  intros _ s' Hs'. destruct (f_kind fr); try exact Hs'.
  - by rewrite (amI_handleUnchoke s').
  - by apply amI_handleBitfield_true.
  - by rewrite (amI_handlePiece (f_buf fr) s').
Qed.

Lemma first_unchoke_value (pre post : list frame) (fr : frame) (s s1 : State) :
  readyEnd (st_pc s) = false ->
  st_readyCh s = makeChan ->
  (0 < onReady (st_receivers s))%nat ->
  Forall (fun f => f_kind f <> inUnchoke) pre ->
  f_kind fr = inUnchoke ->
  recvLoop pre s = Done tt s1 ->
  st_readyCh (outState (recvLoop (pre ++ fr :: post) s))
    = {| sent := [amInterested (st_pc s1)]; cstate := chClosed |}.
Proof.
  intros Hr Hch Hrc Hpre Hk Hrun.
  pose proof (rview_recvLoop_other pre Hpre s) as Hv.
  rewrite Hrun in Hv. injection Hv as Hr1 Hch1 Hrc1.
  rewrite recvLoop_app, Hrun. simpl. unfold mbind, M_bind.
  destruct (dispatch_first_unchoke fr s1 Hk) as (s2 & -> & Hr2 & Hch2 & _);
    [congruence | congruence | lia |].
  pose proof (rview_recvLoop_signalled post s2 Hr2) as Hrest.
  injection Hrest as _ -> _. done.
Qed.

(** X19: what the first Unchoke reports, while ready still waits for it,
    depends on what came before it. When no Bitfield was handled before
    it, the signal is the local-interested flag the loop started with
    (false right after the handshake, so readiness is refused); when that
    flag was already set, no frame before the Unchoke can unset it and the
    signal is true. *)
Theorem first_unchoke_needs_bitfield (pre post : list frame) (fr : frame)
    (s s1 : State) :
  readyEnd (st_pc s) = false ->
  st_readyCh s = makeChan ->
  (0 < onReady (st_receivers s))%nat ->
  Forall (fun f => f_kind f <> inUnchoke) pre ->
  f_kind fr = inUnchoke ->
  recvLoop pre s = Done tt s1 ->
  (Forall (fun f => f_kind f <> inBitfield) pre ->
   st_readyCh (outState (recvLoop (pre ++ fr :: post) s))
     = {| sent := [amInterested (st_pc s)]; cstate := chClosed |}) /\
  (amInterested (st_pc s) = true ->
   st_readyCh (outState (recvLoop (pre ++ fr :: post) s))
     = {| sent := [true]; cstate := chClosed |}).
Proof.
  intros Hr Hch Hrc Hpre Hk Hrun.
  rewrite (first_unchoke_value pre post fr s s1 Hr Hch Hrc Hpre Hk Hrun).
  split.
  - intros Hnb.
    assert (Hq : Forall (fun f => f_kind f <> inUnchoke /\ f_kind f <> inBitfield) pre).
    { rewrite Forall_forall in *. intros f Hf. split; auto. }
    pose proof (amI_recvLoop_quiet pre Hq s) as Ha.
    rewrite Hrun in Ha. simpl in Ha. by rewrite Ha.
  - intros Hs. pose proof (amI_recvLoop_true pre s Hs) as Ha.
    rewrite Hrun in Ha. simpl in Ha. by rewrite Ha.
Qed.

End ReadyValue.

(** A Choke and a Have, then the Unchoke, right after the handshake: not
    ready, and the Bitfield that follows comes too late. On a connection
    that is interested already, a Bitfield claiming nothing, then the
    Unchoke: ready. *)
Lemma first_unchoke_needs_bitfield_witness :
  st_readyCh (outState (recvLoop (Ev := Example.env)
     [Sample.chokeFrame; Sample.haveFrame; Example.unchokeFrame;
      Example.bitfieldFrame] Example.freshState))
  = {| sent := [false]; cstate := chClosed |} /\
  st_readyCh (outState (recvLoop (Ev := Example.env)
     [Sample.emptyBitfieldFrame; Example.unchokeFrame] Sample.interestedState))
  = {| sent := [true]; cstate := chClosed |}.
Proof.
  split.
  - edestruct (first_unchoke_needs_bitfield (Ev := Example.env)
                 [Sample.chokeFrame; Sample.haveFrame] [Example.bitfieldFrame]
                 Example.unchokeFrame Example.freshState) as (Hquiet & _).
    + reflexivity.
    + reflexivity.
    + vm_compute. lia.
    + repeat constructor; discriminate.
    + reflexivity.
    + vm_compute. reflexivity.
    + apply Hquiet. repeat constructor; discriminate.
  - edestruct (first_unchoke_needs_bitfield (Ev := Example.env)
                 [Sample.emptyBitfieldFrame] [] Example.unchokeFrame
                 Sample.interestedState) as (_ & Hset).
    + reflexivity.
    + reflexivity.
    + vm_compute. lia.
    + repeat constructor; discriminate.
    + reflexivity.
    + vm_compute. reflexivity.
    + apply Hset. reflexivity.
Defined.
